(** * json_db: the collection engine of [collection.py]

    A shallow embedding of [JSONCollection]: documents as JSON values,
    the query-by-example predicate [_match], the secondary indexes
    ([_update_indexes], [_query_using_indexes], [_rebuild_indexes],
    [create_index]), the mutating operations ([insert_one], [update],
    [delete]) and [group_by] / [aggregate].

    Conventions of the embedding.
    - A Python [dict] is an association list in insertion order (the order
      is observable through [str] and through the order in which [_match]
      walks a query); lookup takes the first binding of a key.
    - A Python exception is a [Raise e] result.  What the in-memory handle
      looks like after an exception escaped is not described.
    - Numbers are Python [int]s ([Z]); [bool] is its own constructor but,
      as in Python, compares and adds as the integers 0 and 1.  JSON
      floats are left out of the data model.
    - The document file and the index file are fields of the collection
      state; [_load] and [_save] read and replace the field. *)

From Stdlib Require Import List String Ascii ZArith Bool Lia Arith DecimalString Permutation.
Import ListNotations.
Local Open Scope string_scope.
Local Open Scope Z_scope.

(** ** Values *)

Unset Elimination Schemes.
Inductive value : Type :=
| VNull
| VBool (b : bool)
| VInt (n : Z)
| VStr (s : string)
| VList (l : list value)
| VDict (d : list (string * value)).
Set Elimination Schemes.

(** Induction on values, with the elements of a list and the values of a
    mapping as premises. *)

Section ValueInd.
Variable P : value -> Prop.
Hypothesis Hnull : P VNull.
Hypothesis Hbool : forall b, P (VBool b).
Hypothesis Hint : forall n, P (VInt n).
Hypothesis Hstr : forall s, P (VStr s).
Hypothesis Hlist : forall l, Forall P l -> P (VList l).
Hypothesis Hdict : forall d, Forall (fun kv => P (snd kv)) d -> P (VDict d).

Fixpoint value_ind (v : value) : P v :=
  match v with
  | VNull => Hnull
  | VBool b => Hbool b
  | VInt n => Hint n
  | VStr s => Hstr s
  | VList l =>
      Hlist l ((fix go (l : list value) : Forall P l :=
                match l with
                | [] => Forall_nil _
                | x :: l' => Forall_cons x (value_ind x) (go l')
                end) l)
  | VDict d =>
      Hdict d ((fix go (d : list (string * value)) : Forall (fun kv => P (snd kv)) d :=
                match d with
                | [] => Forall_nil _
                | kv :: d' => Forall_cons kv (value_ind (snd kv)) (go d')
                end) d)
  end.
End ValueInd.

(** A document, a query, a patch: each is a Python dict with string keys. *)
Definition dict := list (string * value).

(** ** Exceptions *)

Inductive exn : Type :=
| TypeError
| KeyError
| ReError.

Inductive result (A : Type) : Type :=
| Ok (a : A)
| Raise (e : exn).
Arguments Ok {A} a.
Arguments Raise {A} e.

Definition bind {A B} (m : result A) (f : A -> result B) : result B :=
  match m with
  | Ok a => f a
  | Raise e => Raise e
  end.

Notation "x <- m ;; k" := (bind m (fun x => k))
  (at level 61, m at next level, right associativity).

(** A list comprehension [[x for x in xs if p(x)]] whose condition may
    raise: elements are tested left to right. *)
Fixpoint filterM {A} (p : A -> result bool) (xs : list A) : result (list A) :=
  match xs with
  | [] => Ok []
  | x :: xs' =>
      b <- p x ;;
      rest <- filterM p xs' ;;
      Ok (if b then x :: rest else rest)
  end.

(** ** Python primitives on values *)

(** [d.get(k)] as an option: [None] when the key is missing. *)
Fixpoint dict_get {V} (k : string) (d : list (string * V)) : option V :=
  match d with
  | [] => None
  | (k', v) :: d' => if String.eqb k k' then Some v else dict_get k d'
  end.

(** [d[k] = v]: replaces the value of an existing key in place, appends a
    new key at the end. *)
Fixpoint dict_set {V} (k : string) (v : V) (d : list (string * V)) : list (string * V) :=
  match d with
  | [] => [(k, v)]
  | (k', v') :: d' =>
      if String.eqb k k' then (k', v) :: d' else (k', v') :: dict_set k v d'
  end.

(** [d.update(other)]. *)
Definition dict_update (d other : dict) : dict :=
  fold_left (fun acc kv => dict_set (fst kv) (snd kv) acc) other d.

Definition as_int (b : bool) : Z := if b then 1 else 0.

(** [a == b]. *)
Fixpoint py_eq (a b : value) {struct a} : bool :=
  match a, b with
  | VNull, VNull => true
  | VBool x, VBool y => Bool.eqb x y
  | VBool x, VInt y => Z.eqb (as_int x) y
  | VInt x, VBool y => Z.eqb x (as_int y)
  | VInt x, VInt y => Z.eqb x y
  | VStr x, VStr y => String.eqb x y
  | VList xs, VList ys =>
      (fix go (xs ys : list value) {struct xs} : bool :=
         match xs, ys with
         | [], [] => true
         | x :: xs', y :: ys' => py_eq x y && go xs' ys'
         | _, _ => false
         end) xs ys
  | VDict d1, VDict d2 =>
      Nat.eqb (List.length d1) (List.length d2) &&
      (fix go (d : list (string * value)) {struct d} : bool :=
         match d with
         | [] => true
         | (k, v) :: d' =>
             match dict_get k d2 with
             | Some w => py_eq v w
             | None => false
             end && go d'
         end) d1
  | _, _ => false
  end.

(** [x in xs] for a list [xs]. *)
Definition py_in (x : value) (xs : list value) : bool :=
  existsb (fun y => py_eq x y) xs.

(** Whether [hash(v)] succeeds: lists and dicts are unhashable. *)
Definition hashable (v : value) : bool :=
  match v with
  | VList _ | VDict _ => false
  | _ => true
  end.

(** [isinstance(v, dict)]. *)
Definition is_dict (v : value) : bool :=
  match v with
  | VDict _ => true
  | _ => false
  end.

(** [isinstance(v, (int, float))]: [bool] is a subclass of [int]. *)
Definition is_number (v : value) : bool :=
  match v with
  | VBool _ | VInt _ => true
  | _ => false
  end.

(** ** Strings: [split], [str] and [repr] *)

(** [s.split(".")]: never empty, the empty string splits to one empty
    component. *)
Fixpoint split_dot (s : string) : list string :=
  match s with
  | EmptyString => [EmptyString]
  | String c s' =>
      if Ascii.eqb c "." then EmptyString :: split_dot s'
      else match split_dot s' with
           | [] => [String c EmptyString]
           | w :: ws => String c w :: ws
           end
  end.

Fixpoint is_prefix (p s : string) : bool :=
  match p, s with
  | EmptyString, _ => true
  | String a p', String b s' => Ascii.eqb a b && is_prefix p' s'
  | String _ _, EmptyString => false
  end.

(** [p in s] for two strings: substring test. *)
Fixpoint is_substring (p s : string) : bool :=
  is_prefix p s ||
  match s with
  | EmptyString => false
  | String _ s' => is_substring p s'
  end.

Fixpoint has_char (c : ascii) (s : string) : bool :=
  match s with
  | EmptyString => false
  | String a s' => Ascii.eqb a c || has_char c s'
  end.

Definition squote : ascii := "'"%char.
Definition dquote : ascii := ascii_of_nat 34.
Definition backslash : ascii := "\"%char.

Definition hex_digit (n : nat) : ascii :=
  ascii_of_nat (if Nat.ltb n 10 then 48 + n else 87 + n).

(** One character of [repr(s)] with quote character [q].  Bytes above
    127 are UTF-8 bytes of printable text and pass through. *)
Definition repr_char (q c : ascii) : string :=
  let n := nat_of_ascii c in
  if Ascii.eqb c q then String backslash (String q EmptyString)
  else if Ascii.eqb c backslash then String backslash (String backslash EmptyString)
  else if Nat.eqb n 9 then String backslash "t"
  else if Nat.eqb n 10 then String backslash "n"
  else if Nat.eqb n 13 then String backslash "r"
  else if Nat.ltb n 32 || Nat.eqb n 127
       then String backslash
              (String "x" (String (hex_digit (Nat.div n 16))
                             (String (hex_digit (Nat.modulo n 16)) EmptyString)))
  else String c EmptyString.

Fixpoint repr_chars (q : ascii) (s : string) : string :=
  match s with
  | EmptyString => EmptyString
  | String c s' => repr_char q c ++ repr_chars q s'
  end.

(** [repr(s)] of a string: single quotes, unless the text holds a single
    quote and no double quote. *)
Definition repr_str (s : string) : string :=
  let q := if has_char squote s && negb (has_char dquote s) then dquote else squote in
  String q (repr_chars q s ++ String q EmptyString).

(** [str(n)] of an int. *)
Definition str_int (n : Z) : string := NilZero.string_of_int (Z.to_int n).

Definition str_bool (b : bool) : string := if b then "True" else "False".

Fixpoint join (sep : string) (xs : list string) : string :=
  match xs with
  | [] => EmptyString
  | [x] => x
  | x :: xs' => x ++ sep ++ join sep xs'
  end.

(** [repr(v)]. *)
Fixpoint py_repr (v : value) : string :=
  match v with
  | VNull => "None"
  | VBool b => str_bool b
  | VInt n => str_int n
  | VStr s => repr_str s
  | VList l => "[" ++ join ", " (map py_repr l) ++ "]"
  | VDict d =>
      "{" ++ join ", " (map (fun kv => repr_str (fst kv) ++ ": " ++ py_repr (snd kv)) d) ++ "}"
  end.

(** [str(v)]: differs from [repr] on strings only, at top level. *)
Definition py_str (v : value) : string :=
  match v with
  | VStr s => s
  | _ => py_repr v
  end.

(** ** Ordering and membership operators *)

Inductive cmp_op : Type := OpGt | OpLt | OpGte | OpLte.

Definition cmp_holds (op : cmp_op) (c : comparison) : bool :=
  match op, c with
  | OpGt, Gt | OpLt, Lt => true
  | OpGte, (Gt | Eq) | OpLte, (Lt | Eq) => true
  | _, _ => false
  end.

(** [a > b], [a < b], [a >= b], [a <= b].  Numbers (and bools) compare
    numerically, strings by code points, lists lexicographically on the
    first pair of unequal elements; everything else raises [TypeError]. *)
Fixpoint py_cmp (op : cmp_op) (a b : value) {struct a} : result bool :=
  match a, b with
  | VBool x, VBool y => Ok (cmp_holds op (Z.compare (as_int x) (as_int y)))
  | VBool x, VInt y => Ok (cmp_holds op (Z.compare (as_int x) y))
  | VInt x, VBool y => Ok (cmp_holds op (Z.compare x (as_int y)))
  | VInt x, VInt y => Ok (cmp_holds op (Z.compare x y))
  | VStr x, VStr y => Ok (cmp_holds op (String.compare x y))
  | VList xs, VList ys =>
      (fix go (xs ys : list value) {struct xs} : result bool :=
         match xs, ys with
         | [], [] => Ok (cmp_holds op Eq)
         | [], _ :: _ => Ok (cmp_holds op Lt)
         | _ :: _, [] => Ok (cmp_holds op Gt)
         | x :: xs', y :: ys' => if py_eq x y then go xs' ys' else py_cmp op x y
         end) xs ys
  | _, _ => Raise TypeError
  end.

(** [val in cond_val] for an arbitrary right operand. *)
Definition py_contains (val cond_val : value) : result bool :=
  match cond_val with
  | VList l => Ok (py_in val l)
  | VStr t =>
      match val with
      | VStr s => Ok (is_substring s t)
      | _ => Raise TypeError
      end
  | VDict d =>
      match val with
      | VStr k => Ok (match dict_get k d with Some _ => true | None => false end)
      | VList _ | VDict _ => Raise TypeError
      | _ => Ok false
      end
  | _ => Raise TypeError
  end.

(** [re.search] on a string pattern is the regular-expression engine of
    the Python library: it is an interface here.  [Raise ReError] stands
    for a pattern that does not compile. *)
Class Regex : Type := { re_search : string -> string -> result bool }.

(** The engine restricted to patterns without metacharacters, where
    [re.search] is a substring search. *)
Definition literal_regex : Regex := {| re_search := fun p s => Ok (is_substring p s) |}.

(** ** The query predicate *)

Section Match.
Context {R : Regex}.

(** The path walk of [_match]: [None] is the early [return False] on a
    value that is not a dict; a missing key reads as [None] ([VNull]). *)
Fixpoint match_walk (val : value) (keys : list string) : option value :=
  match keys with
  | [] => Some val
  | key :: keys' =>
      match val with
      | VDict d =>
          match_walk (match dict_get key d with Some v => v | None => VNull end) keys'
      | _ => None
      end
  end.

(** One operator of an operator document: [Ok false] is [return False],
    [Ok true] lets the loop go on.  An unknown operator is skipped. *)
Definition match_op (op : string) (val cond_val : value) : result bool :=
  if String.eqb op "$gt" then py_cmp OpGt val cond_val
  else if String.eqb op "$lt" then py_cmp OpLt val cond_val
  else if String.eqb op "$gte" then py_cmp OpGte val cond_val
  else if String.eqb op "$lte" then py_cmp OpLte val cond_val
  else if String.eqb op "$in" then py_contains val cond_val
  else if String.eqb op "$regex" then
    match cond_val with
    | VStr p => re_search p (py_str val)
    | _ => Raise TypeError
    end
  else if String.eqb op "$ne" then Ok (negb (py_eq val cond_val))
  else Ok true.

Fixpoint match_ops (ops : dict) (val : value) : result bool :=
  match ops with
  | [] => Ok true
  | (op, cond_val) :: ops' =>
      b <- match_op op val cond_val ;;
      if b then match_ops ops' val else Ok false
  end.

Fixpoint _match (doc query : dict) : result bool :=
  match query with
  | [] => Ok true
  | (k, v) :: query' =>
      match match_walk (VDict doc) (split_dot k) with
      | None => Ok false
      | Some val =>
          match v with
          | VDict ops =>
              b <- match_ops ops val ;;
              if b then _match doc query' else Ok false
          | _ => if py_eq val v then _match doc query' else Ok false
          end
      end
  end.

End Match.


(** ** Collection state *)

(** One index: stringified field value to the ids recorded under it. *)
Definition index := list (string * list value).

(** [self.indexes]: field path to index. *)
Definition index_map := list (string * index).

Record collection : Type := mkCollection {
  documents : list dict;            (* the document file *)
  indexes : index_map;              (* [self.indexes], in memory *)
  index_file : option index_map     (* the index file, once written *)
}.

(** A collection opened on a fresh path: [_ensure_file] writes the empty
    list, no index file exists. *)
Definition new_collection : collection :=
  {| documents := []; indexes := []; index_file := None |}.

Definition has_key {V} (k : string) (d : list (string * V)) : bool :=
  match dict_get k d with Some _ => true | None => false end.

(** [d[k]] on a document: [KeyError] when the key is missing. *)
Definition getitem (k : string) (d : dict) : result value :=
  match dict_get k d with
  | Some v => Ok v
  | None => Raise KeyError
  end.

(** [index[s]] once the bucket is known to exist. *)
Definition bucket (s : string) (ix : index) : list value :=
  match dict_get s ix with Some ids => ids | None => [] end.

(** ** Field resolution for indexes, grouping and aggregation *)

Fixpoint nested_walk (val : value) (keys : list string) : value :=
  match keys with
  | [] => val
  | k :: keys' =>
      nested_walk
        (match val with
         | VDict d => match dict_get k d with Some v => v | None => VDict [] end
         | _ => VDict []
         end) keys'
  end.

Definition _get_nested_value (doc : dict) (key : string) : value :=
  let val := nested_walk (VDict doc) (split_dot key) in
  if py_eq val (VDict []) then VNull else val.

(** ** Index maintenance *)

(** The body of the loop of [_update_indexes] for one registered field. *)
Definition update_index (document : dict) (key : string) (ix : index) : result index :=
  match _get_nested_value document key with
  | VNull => Ok ix
  | v =>
      let s := py_str v in
      let ix1 := if has_key s ix then ix else dict_set s [] ix in
      id <- getitem "_id" document ;;
      let ids := bucket s ix1 in
      Ok (if py_in id ids then ix1 else dict_set s (ids ++ [id])%list ix1)
  end.

(** [for key in self.indexes]: the registered fields in order, each with
    its own index [self.indexes[key]]. *)
Fixpoint _update_indexes (document : dict) (ixs : index_map) : result index_map :=
  match ixs with
  | [] => Ok []
  | (key, ix) :: ixs' =>
      ix' <- update_index document key ix ;;
      rest <- _update_indexes document ixs' ;;
      Ok ((key, ix') :: rest)
  end.

(** [for doc in documents: self._update_indexes(doc)]. *)
Fixpoint update_indexes_all (docs : list dict) (ixs : index_map) : result index_map :=
  match docs with
  | [] => Ok ixs
  | doc :: docs' =>
      ixs' <- _update_indexes doc ixs ;;
      update_indexes_all docs' ixs'
  end.

Definition clear_indexes (ixs : index_map) : index_map :=
  map (fun kv => (fst kv, @nil (string * list value))) ixs.

Definition _rebuild_indexes (docs : list dict) (ixs : index_map) : result index_map :=
  update_indexes_all docs (clear_indexes ixs).

(** ** Index consultation *)

(** [set(xs)]: raises on an unhashable element; equal elements are kept
    once.  The iteration order of a Python set is unspecified and the
    code only tests membership in the result. *)
Fixpoint dedup (xs : list value) : list value :=
  match xs with
  | [] => []
  | x :: xs' => let r := dedup xs' in if py_in x r then r else x :: r
  end.

Definition py_set (xs : list value) : result (list value) :=
  if forallb hashable xs then Ok (dedup xs) else Raise TypeError.

(** [a & b] on sets. *)
Definition set_inter (a b : list value) : list value :=
  filter (fun x => py_in x b) a.

Fixpoint query_loop (ixs : index_map) (query : dict) (matched_ids : option (list value))
  : result (option (list value)) :=
  match query with
  | [] => Ok matched_ids
  | (field, value) :: query' =>
      if is_dict value then Ok None
      else
        match dict_get field ixs with
        | Some ix =>
            if negb (Nat.eqb (List.length ix) 0) && has_key (py_str value) ix then
              current_ids <- py_set (bucket (py_str value) ix) ;;
              query_loop ixs query'
                (Some (match matched_ids with
                       | None => current_ids
                       | Some m => set_inter m current_ids
                       end))
            else Ok None
        | None => Ok None
        end
  end.

Definition _query_using_indexes (ixs : index_map) (query : dict) : result (option (list value)) :=
  query_loop ixs query None.

(** ** Public operations *)

Section Operations.
Context {R : Regex}.

(** Lines 82-85 and 89-92: load, consult the indexes, and keep the
    documents whose [_id] is among the candidates. *)
Definition candidates (query : dict) (c : collection) : result (list dict) :=
  indexed_results <- _query_using_indexes (indexes c) query ;;
  match indexed_results with
  | Some ids =>
      filterM (fun doc => id <- getitem "_id" doc ;; Ok (py_in id ids)) (documents c)
  | None => Ok (documents c)
  end.

Definition find (query : dict) (c : collection) : result (list dict) :=
  data <- candidates query c ;;
  filterM (fun doc => _match doc query) data.

Fixpoint first_match (query : dict) (data : list dict) : result (option dict) :=
  match data with
  | [] => Ok None
  | doc :: data' =>
      b <- _match doc query ;;
      if b then Ok (Some doc) else first_match query data'
  end.

Definition find_one (query : dict) (c : collection) : result (option dict) :=
  data <- candidates query c ;;
  first_match query data.

(** [insert_one]; [uuid] is the string [_generate_id] returns, drawn only
    when the document has no [_id]. *)
Definition insert_one (uuid : string) (document : dict) (c : collection) : result collection :=
  let document := if has_key "_id" document then document
                  else dict_set "_id" (VStr uuid) document in
  let data := (documents c ++ [document])%list in
  ixs <- _update_indexes document (indexes c) ;;
  Ok {| documents := data; indexes := ixs; index_file := Some ixs |}.

Fixpoint update_loop (query updates : dict) (data : list dict) (ixs : index_map)
  : result (list dict * index_map) :=
  match data with
  | [] => Ok ([], ixs)
  | doc :: data' =>
      b <- _match doc query ;;
      if b then
        let doc' := dict_update doc updates in
        ixs' <- _update_indexes doc' ixs ;;
        r <- update_loop query updates data' ixs' ;;
        Ok (doc' :: fst r, snd r)
      else
        r <- update_loop query updates data' ixs ;;
        Ok (doc :: fst r, snd r)
  end.

Definition update (query updates : dict) (c : collection) : result collection :=
  r <- update_loop query updates (documents c) (indexes c) ;;
  Ok {| documents := fst r; indexes := snd r; index_file := Some (snd r) |}.

Definition delete (query : dict) (c : collection) : result collection :=
  new_data <- filterM (fun doc => b <- _match doc query ;; Ok (negb b)) (documents c) ;;
  ixs <- _rebuild_indexes new_data (indexes c) ;;
  Ok {| documents := new_data; indexes := ixs; index_file := Some ixs |}.

Definition create_index (field : string) (c : collection) : result collection :=
  ixs <- update_indexes_all (documents c) (dict_set field [] (indexes c)) ;;
  Ok {| documents := documents c; indexes := ixs; index_file := Some ixs |}.

End Operations.

(** ** Grouping and aggregation *)

(** [grouped[key].append(doc)] on a [defaultdict(list)]: the key found is
    the first stored key equal to [key]. *)
Fixpoint group_add (key : value) (doc : dict) (grouped : list (value * list dict))
  : list (value * list dict) :=
  match grouped with
  | [] => [(key, [doc])]
  | (k, ds) :: grouped' =>
      if py_eq key k then (k, (ds ++ [doc])%list) :: grouped'
      else (k, ds) :: group_add key doc grouped'
  end.

Fixpoint group_loop (field : string) (data : list dict) (grouped : list (value * list dict))
  : result (list (value * list dict)) :=
  match data with
  | [] => Ok grouped
  | doc :: data' =>
      let key := _get_nested_value doc field in
      if hashable key then group_loop field data' (group_add key doc grouped)
      else Raise TypeError
  end.

Definition group_by (field : string) (c : collection) : result (list (value * list dict)) :=
  group_loop field (documents c) [].

(** What [aggregate] returns: a JSON value, or the float quotient of two
    ints ([s / n], left as the exact fraction). *)
Inductive agg_result : Type :=
| AggValue (v : value)
| AggQuot (s : Z) (n : Z).

Definition num_val (v : value) : Z :=
  match v with
  | VBool b => as_int b
  | VInt n => n
  | _ => 0
  end.

(** [sum(values)]. *)
Definition py_sum (values : list value) : Z :=
  fold_left (fun acc v => acc + num_val v) values 0.

(** [min(values)] and [max(values)] on a non-empty list: the first of the
    least (greatest) elements. *)
Definition py_min (first : value) (rest : list value) : value :=
  fold_left (fun m v => if Z.ltb (num_val v) (num_val m) then v else m) rest first.

Definition py_max (first : value) (rest : list value) : value :=
  fold_left (fun m v => if Z.gtb (num_val v) (num_val m) then v else m) rest first.

Definition agg_values (field : string) (data : list dict) : list value :=
  filter is_number (map (fun doc => _get_nested_value doc field) data).

Definition aggregate (field operation : string) (c : collection) : agg_result :=
  let values := agg_values field (documents c) in
  if String.eqb operation "sum" then AggValue (VInt (py_sum values))
  else if String.eqb operation "avg" then
    match values with
    | [] => AggValue (VInt 0)
    | _ :: _ => AggQuot (py_sum values) (Z.of_nat (List.length values))
    end
  else if String.eqb operation "min" then
    match values with
    | [] => AggValue VNull
    | v :: vs => AggValue (py_min v vs)
    end
  else if String.eqb operation "max" then
    match values with
    | [] => AggValue VNull
    | v :: vs => AggValue (py_max v vs)
    end
  else AggValue VNull.


(** ** Predicates used to state the properties *)

(** The notion of a correct index, in the words of the specification: the
    [_id] of [doc] appears in [index[f][str(resolve(doc, f))]] if and
    only if [resolve(doc, f)] is not null. *)
Definition doc_indexed_correctly (doc : dict) (key : string) (ix : index) : bool :=
  let v := _get_nested_value doc key in
  let appears :=
    match dict_get "_id" doc with
    | Some id => py_in id (bucket (py_str v) ix)
    | None => false
    end in
  Bool.eqb appears (negb (py_eq v VNull)).

Definition index_correct (c : collection) : bool :=
  forallb (fun doc =>
    forallb (fun kv => doc_indexed_correctly doc (fst kv) (snd kv)) (indexes c))
    (documents c).

(** Two documents carry equal [_id]s. *)
Definition same_id (d e : dict) : bool :=
  match dict_get "_id" d, dict_get "_id" e with
  | Some a, Some b => py_eq a b
  | _, _ => false
  end.

(** The [_id]s of the document set are pairwise distinct. *)
Fixpoint ids_unique (docs : list dict) : bool :=
  match docs with
  | [] => true
  | d :: docs' => negb (existsb (same_id d) docs') && ids_unique docs'
  end.

(** No stored document has [uuid] as its [_id]. *)
Definition id_fresh (uuid : string) (docs : list dict) : bool :=
  forallb (fun e =>
    match dict_get "_id" e with
    | Some a => negb (py_eq a (VStr uuid))
    | None => true
    end) docs.

(** What a hashable value is looked up by in a set or a dict: equal
    hashable values have the same key. *)
Inductive hkey : Type :=
| HNone
| HNum (n : Z)
| HStr (s : string).

Definition hash_key (v : value) : option hkey :=
  match v with
  | VNull => Some HNone
  | VBool b => Some (HNum (as_int b))
  | VInt n => Some (HNum n)
  | VStr s => Some (HStr s)
  | VList _ | VDict _ => None
  end.

(** Every id recorded in an index can be put in a set. *)
Definition index_hashable (ix : index) : bool :=
  forallb (fun b => forallb hashable (snd b)) ix.

Definition index_ids_hashable (ixs : index_map) : bool :=
  forallb (fun kv => index_hashable (snd kv)) ixs.

(** What [insert_one] stores: the document itself when it came with an
    [_id], the document with the generated [_id] appended otherwise. *)
Definition stored (uuid : string) (d : dict) : dict :=
  if has_key "_id" d then d else (d ++ [("_id", VStr uuid)])%list.

(** A run of [insert_one] calls, each with the id its [_generate_id]
    would return. *)
Fixpoint insert_many (items : list (string * dict)) (c : collection)
  : result collection :=
  match items with
  | [] => Ok c
  | (uuid, d) :: items' =>
      c' <- insert_one uuid d c ;;
      insert_many items' c'
  end.

(** [grouped] is the grouping of the documents [pre] by their resolved
    value at [field]: keys pairwise unequal, every group the documents of
    [pre] whose value equals its key, in the order of [pre], and every
    document of [pre] in some group. *)
Definition groups_of (field : string) (pre : list dict) (grouped : list (value * list dict)) : Prop :=
  NoDup (map (fun p => hash_key (fst p)) grouped) /\
  (forall k ds, In (k, ds) grouped ->
     hashable k = true /\ ds <> [] /\
     ds = filter (fun d => py_eq (_get_nested_value d field) k) pre) /\
  (forall d, In d pre ->
     exists k ds, In (k, ds) grouped /\ py_eq (_get_nested_value d field) k = true).

(** The clause [(field, value)] of a query can be answered from the
    indexes: a plain value, a registered non-empty index, a bucket. *)
Definition clause_indexed (ixs : index_map) (clause : string * value) : bool :=
  negb (is_dict (snd clause)) &&
  match dict_get (fst clause) ixs with
  | Some ix => negb (Nat.eqb (List.length ix) 0) && has_key (py_str (snd clause)) ix
  | None => false
  end.

(** The bucket a clause selects. *)
Definition clause_bucket (ixs : index_map) (clause : string * value) : list value :=
  match dict_get (fst clause) ixs with
  | Some ix => bucket (py_str (snd clause)) ix
  | None => []
  end.

Definition is_ordered_op (op : string) : bool :=
  String.eqb op "$gt" || String.eqb op "$lt" || String.eqb op "$gte" || String.eqb op "$lte".

(** Python can order [a] and [b]. *)
Definition order_comparable (a b : value) : bool :=
  match py_cmp OpLt a b with
  | Ok _ => true
  | Raise _ => false
  end.

(** The field is absent in the sense of the specification: a key is
    missing at some level, or an intermediate value is not a mapping. *)
Fixpoint absent (val : value) (keys : list string) : bool :=
  match keys with
  | [] => false
  | k :: keys' =>
      match val with
      | VDict d =>
          match dict_get k d with
          | Some v => absent v keys'
          | None => true
          end
      | _ => true
      end
  end.

(** The indexes are complete for [docs]: every document with a hashable
    [_id] and a non-null resolved value at a registered field has its id
    in the bucket of that value.  This is the direction of index
    correctness that [find] relies on. *)
Definition index_complete (docs : list dict) (ixs : index_map) : Prop :=
  forall d f ix id,
    In d docs -> dict_get f ixs = Some ix ->
    dict_get "_id" d = Some id -> hashable id = true ->
    _get_nested_value d f <> VNull ->
    has_key (py_str (_get_nested_value d f)) ix = true /\
    py_in id (bucket (py_str (_get_nested_value d f)) ix) = true.

(** ** Files and handles *)




(** ** File names *)

(** The name cut at its last dot: what is before, and the rest from the
    dot on. *)
Fixpoint split_last_dot (s : string) : option (string * string) :=
  match s with
  | EmptyString => None
  | String c s' =>
      match split_last_dot s' with
      | Some (pre, suf) => Some (String c pre, suf)
      | None => if Ascii.eqb c "." then Some (EmptyString, s) else None
      end
  end.

(** [PurePath.suffix] of a file name: from the last dot on, unless that
    dot is the first or the last character. *)
Definition path_suffix (name : string) : string :=
  match split_last_dot name with
  | Some (pre, suf) =>
      if String.eqb pre "" || String.eqb suf "." then "" else suf
  | None => ""
  end.

(** [PurePath.with_suffix] on a file name, for a well-formed new suffix;
    [None] is the [ValueError] on an empty name. *)
Definition with_suffix (name suffix : string) : option string :=
  if String.eqb name "" then None
  else
    match split_last_dot name with
    | Some (pre, suf) =>
        if String.eqb pre "" || String.eqb suf "." then Some (name ++ suffix)
        else Some (pre ++ suffix)
    | None => Some (name ++ suffix)
    end.

(** [JSONDatabase.get_collection]: the file name of the collection
    [name] under the base directory. *)
Definition doc_file_name (name : string) : string := name ++ ".json".

(** [self.index_path] of [JSONCollection.__init__]. *)
Definition index_file_name (doc_name : string) : option string :=
  with_suffix doc_name ".index.json".

(** ** More predicates *)

(** A plain clause holds on a document. *)
Definition clause_holds {R : Regex} (doc : dict) (clause : string * value) : bool :=
  match match_walk (VDict doc) (split_dot (fst clause)) with
  | Some val => py_eq val (snd clause)
  | None => false
  end.

(** The operators [_match] knows. *)
Definition known_op (op : string) : bool :=
  String.eqb op "$gt" || String.eqb op "$lt" || String.eqb op "$gte" ||
  String.eqb op "$lte" || String.eqb op "$in" || String.eqb op "$regex" ||
  String.eqb op "$ne".

(** One index through [_update_indexes] for each document in turn. *)
Fixpoint index_fold (docs : list dict) (key : string) (ix : index) : result index :=
  match docs with
  | [] => Ok ix
  | d :: docs' =>
      ix' <- update_index d key ix ;;
      index_fold docs' key ix'
  end.

(** The number of documents in all groups. *)
Definition group_total (grouped : list (value * list dict)) : nat :=
  fold_right (fun kv n => (List.length (snd kv) + n)%nat) 0%nat grouped.

(** The document has an [_id] that can be put in a set. *)
Definition has_hashable_id (d : dict) : Prop :=
  exists id, dict_get "_id" d = Some id /\ hashable id = true.

(** ** Sample states *)

(** Two stored documents: the first has no field [a], the second has the
    string [None] there. *)
Definition docs_null_and_text : list dict :=
  [ [("_id", VStr "x")];
    [("a", VStr "None"); ("_id", VStr "y")] ].

(** Two stored documents whose [a] is the int 1 and the bool [True]. *)
Definition docs_one_and_true : list dict :=
  [ [("a", VInt 1); ("_id", VStr "x")];
    [("a", VBool true); ("_id", VStr "y")] ].

Definition unindexed (docs : list dict) : collection :=
  {| documents := docs; indexes := []; index_file := None |}.

(** One document with [a = 1], indexed on [a]: the state after
    [insert_one] and [create_index]. *)
Definition indexed_one : collection :=
  {| documents := [ [("a", VInt 1); ("_id", VStr "x")] ];
     indexes := [("a", [("1", [VStr "x"])])];
     index_file := Some [("a", [("1", [VStr "x"])])] |}.

(** One document whose [a] is the string [None], indexed on [a]. *)
Definition indexed_text : collection :=
  {| documents := [ [("a", VStr "None"); ("_id", VStr "x")] ];
     indexes := [("a", [("None", [VStr "x"])])];
     index_file := Some [("a", [("None", [VStr "x"])])] |}.

(** The state of [indexed_one] after [update({}, {a: 2})]. *)
Definition indexed_one_updated : collection :=
  {| documents := [ [("a", VInt 2); ("_id", VStr "x")] ];
     indexes := [("a", [("1", [VStr "x"]); ("2", [VStr "x"])])];
     index_file := Some [("a", [("1", [VStr "x"]); ("2", [VStr "x"])])] |}.

(** Two documents whose [a] is the int 1 and the string [1]. *)
Definition docs_one_and_text : list dict :=
  [ [("a", VInt 1); ("_id", VStr "x")];
    [("a", VStr "1"); ("_id", VStr "y")] ].

(** A document without [a] and one whose [a] is the string [z], indexed
    on [a]. *)
Definition indexed_null_and_text : collection :=
  {| documents := [ [("_id", VStr "x")]; [("a", VStr "z"); ("_id", VStr "y")] ];
     indexes := [("a", [("z", [VStr "y"])])];
     index_file := Some [("a", [("z", [VStr "y"])])] |}.

(** * Properties *)

(** ** The result monad *)

Lemma bind_Ok {A B} (m : result A) (f : A -> result B) (b : B) :
  bind m f = Ok b -> exists a, m = Ok a /\ f a = Ok b.
Proof.
  destruct m as [a|e]; simpl; intros H; [eauto | discriminate].
Qed.

Lemma filterM_total {A} (p : A -> result bool) (q : A -> bool) (xs : list A) :
  (forall x, In x xs -> p x = Ok (q x)) ->
  filterM p xs = Ok (filter q xs).
Proof.
  induction xs as [|x xs IH]; intros H; simpl; [reflexivity|].
  rewrite (H x (or_introl eq_refl)). simpl.
  rewrite IH by (intros y Hy; apply H; right; exact Hy). reflexivity.
Qed.

Lemma filter_none {A} (f : A -> bool) (l : list A) :
  (forall x, In x l -> f x = false) -> filter f l = [].
Proof.
  induction l as [|x l IH]; intros H; simpl; [reflexivity|].
  rewrite (H x (or_introl eq_refl)). apply IH. intros y Hy. apply H. right. exact Hy.
Qed.

(** ** Ordered comparison *)

Lemma py_cmp_raise_any_op (a : value) :
  forall b op op' e, py_cmp op a b = Raise e -> py_cmp op' a b = Raise TypeError.
Proof.
  induction a as [| x | x | x | l IH | d _] using value_ind; intros b op op' e H;
    destruct b; simpl in *; try discriminate; try reflexivity.
  revert l0 H. induction IH as [|x xs Hx _ IHxs]; intros ys H.
  - destruct ys; discriminate.
  - destruct ys as [|y ys]; [discriminate|].
    destruct (py_eq x y); [apply IHxs; exact H | eapply Hx; exact H].
Qed.

Lemma not_comparable_raises (a b : value) (op : cmp_op) :
  order_comparable a b = false -> py_cmp op a b = Raise TypeError.
Proof.
  unfold order_comparable. destruct (py_cmp OpLt a b) eqn:E; [discriminate|].
  intros _. eapply py_cmp_raise_any_op; exact E.
Qed.

Section Properties.
Context {R : Regex}.

Lemma ordered_op_raises (op : string) (val c : value) :
  is_ordered_op op = true -> order_comparable val c = false ->
  match_op op val c = Raise TypeError.
Proof.
  unfold is_ordered_op, match_op. intros Hop Hc.
  destruct (String.eqb op "$gt"); [apply not_comparable_raises; exact Hc|].
  destruct (String.eqb op "$lt"); [apply not_comparable_raises; exact Hc|].
  destruct (String.eqb op "$gte"); [apply not_comparable_raises; exact Hc|].
  destruct (String.eqb op "$lte"); [apply not_comparable_raises; exact Hc|].
  discriminate.
Qed.

Lemma match_ops_never_true (ops : dict) (op : string) (val c : value) :
  In (op, c) ops -> is_ordered_op op = true -> order_comparable val c = false ->
  match_ops ops val <> Ok true.
Proof.
  intros Hin Hop Hc. induction ops as [|[op' c'] ops IH]; [contradiction|].
  simpl. destruct Hin as [Heq|Hin].
  - inversion Heq; subst. rewrite (ordered_op_raises _ _ _ Hop Hc). simpl. discriminate.
  - destruct (match_op op' val c') as [[|]|e]; simpl; try discriminate.
    apply IH; exact Hin.
Qed.

(** C8 (as amended).  An ordered-comparison clause on operands Python
    cannot order never yields a match, but it is not reported as a
    controlled condition either: when the clause is reached and the
    path resolves through mappings, the comparison raises [TypeError] out
    of [_match]; when the path crosses a value that is not a mapping,
    [_match] returns [False] without any error; and a query holding such
    a clause anywhere never evaluates to [True]. *)
Theorem ordered_clause_on_incomparable_operands
  (doc query rest ops ops' : dict) (k op : string) (c : value) :
  is_ordered_op op = true ->
  (forall val, match_walk (VDict doc) (split_dot k) = Some val ->
               order_comparable val c = false) ->
  In (k, VDict ops) query -> In (op, c) ops ->
  (match match_walk (VDict doc) (split_dot k) with
   | Some _ => _match doc ((k, VDict ((op, c) :: ops')) :: rest) = Raise TypeError
   | None => _match doc ((k, VDict ((op, c) :: ops')) :: rest) = Ok false
   end)
  /\ _match doc query <> Ok true.
Proof.
  intros Hop Hc Hq Ho. split.
  - simpl. destruct (match_walk (VDict doc) (split_dot k)) as [val|] eqn:E; [|reflexivity].
    rewrite (ordered_op_raises _ _ _ Hop (Hc val eq_refl)). reflexivity.
  - induction query as [|[k' v'] query IH]; [contradiction|].
    simpl. destruct Hq as [Heq|Hq].
    + inversion Heq; subst.
      destruct (match_walk (VDict doc) (split_dot k)) as [val|] eqn:E; [|discriminate].
      pose proof (match_ops_never_true ops op val c Ho Hop (Hc val eq_refl)) as Hn.
      destruct (match_ops ops val) as [[|]|e]; simpl; try discriminate.
      contradiction.
    + destruct (match_walk (VDict doc) (split_dot k')) as [val|]; [|discriminate].
      destruct v'; try (destruct (py_eq val _); [apply IH; exact Hq | discriminate]).
      destruct (match_ops d val) as [[|]|e]; simpl; try discriminate.
      apply IH; exact Hq.
Qed.

(** ** Equality on hashable values *)

Lemma py_eq_hash_key (x y : value) :
  hashable y = true -> (py_eq x y = true <-> hash_key x = hash_key y).
Proof.
  intros Hy. destruct y; try discriminate; destruct x; simpl; split; intros H;
    try discriminate; try reflexivity; try congruence.
  all: try (destruct b, b0; simpl in *; try discriminate; reflexivity).
  all: try (apply Z.eqb_eq in H; subst; reflexivity).
  all: try (inversion H; subst; try apply Z.eqb_refl; try apply String.eqb_refl).
  all: try (apply String.eqb_eq in H; subst; reflexivity).
  all: try (destruct b, b0; simpl in *; congruence).
Qed.

Lemma py_eq_refl_hashable (x : value) : hashable x = true -> py_eq x x = true.
Proof. intros H. apply py_eq_hash_key; [exact H | reflexivity]. Qed.

Lemma py_eq_hashable_false (x y : value) :
  hashable y = true -> (py_eq x y = false <-> hash_key x <> hash_key y).
Proof.
  intros Hy. pose proof (py_eq_hash_key x y Hy) as [H1 H2].
  destruct (py_eq x y); split; intros H; try discriminate; try reflexivity.
  - exfalso. apply H. apply H1. reflexivity.
  - intros E. specialize (H2 E). discriminate.
Qed.

Lemma py_eq_null (v : value) : py_eq v VNull = true -> v = VNull.
Proof. destruct v; simpl; try discriminate; reflexivity. Qed.

(** ** Field resolution *)

Lemma nested_walk_empty (keys : list string) : nested_walk (VDict []) keys = VDict [].
Proof. induction keys as [|k keys IH]; simpl; [reflexivity | exact IH]. Qed.

Lemma nested_walk_not_dict (val : value) (k : string) (keys : list string) :
  is_dict val = false -> nested_walk val (k :: keys) = VDict [].
Proof. destruct val; simpl; try discriminate; intros _; apply nested_walk_empty. Qed.

Lemma absent_nested_walk (keys : list string) :
  forall val, absent val keys = true -> nested_walk val keys = VDict [].
Proof.
  induction keys as [|k keys IH]; intros val H; [discriminate|].
  destruct val; try (apply nested_walk_not_dict; reflexivity).
  simpl in *. destruct (dict_get k d) as [v|]; [apply IH; exact H | apply nested_walk_empty].
Qed.

Lemma match_walk_nested_walk (keys : list string) :
  forall val v, match_walk val keys = Some v -> v <> VNull -> nested_walk val keys = v.
Proof.
  induction keys as [|k keys IH]; intros val v H Hv; simpl in *; [congruence|].
  destruct val; try discriminate.
  destruct (dict_get k d) as [x|]; [apply IH; assumption|].
  destruct keys; simpl in H; [congruence | discriminate].
Qed.

Lemma absent_resolves_to_null (doc : dict) (field : string) :
  absent (VDict doc) (split_dot field) = true -> _get_nested_value doc field = VNull.
Proof.
  intros H. unfold _get_nested_value. rewrite (absent_nested_walk _ _ H). reflexivity.
Qed.

Lemma empty_mapping_resolves_to_null (doc : dict) (field : string) :
  match_walk (VDict doc) (split_dot field) = Some (VDict []) ->
  _get_nested_value doc field = VNull.
Proof.
  intros H. unfold _get_nested_value.
  rewrite (match_walk_nested_walk _ _ _ H) by discriminate. reflexivity.
Qed.

(** ** Grouping *)

Lemma group_add_keys (key : value) (d : dict) (g : list (value * list dict)) :
  map fst (group_add key d g) =
  if existsb (fun p => py_eq key (fst p)) g then map fst g else (map fst g ++ [key])%list.
Proof.
  induction g as [|[k ds] g IH]; simpl; [reflexivity|].
  destruct (py_eq key k); simpl; [reflexivity|].
  rewrite IH. destruct (existsb _ g); reflexivity.
Qed.

Lemma existsb_py_eq_hash (key : value) (g : list (value * list dict)) :
  (forall k ds, In (k, ds) g -> hashable k = true) ->
  (existsb (fun p => py_eq key (fst p)) g = true <->
   In (hash_key key) (map (fun p => hash_key (fst p)) g)).
Proof.
  intros Hh. rewrite existsb_exists, in_map_iff. split.
  - intros [[k ds] [Hin He]]. exists (k, ds). split; [|exact Hin].
    symmetry. apply py_eq_hash_key; [eapply Hh; exact Hin | exact He].
  - intros [[k ds] [He Hin]]. exists (k, ds). split; [exact Hin|].
    apply py_eq_hash_key; [eapply Hh; exact Hin | symmetry; exact He].
Qed.

Lemma group_add_NoDup (key : value) (d : dict) (g : list (value * list dict)) :
  (forall k ds, In (k, ds) g -> hashable k = true) ->
  NoDup (map (fun p => hash_key (fst p)) g) ->
  NoDup (map (fun p => hash_key (fst p)) (group_add key d g)).
Proof.
  intros Hh Hnd.
  assert (E : forall l : list (value * list dict),
             map (fun p => hash_key (fst p)) l = map hash_key (map fst l))
    by (intros l; rewrite map_map; reflexivity).
  rewrite E, group_add_keys.
  destruct (existsb (fun p => py_eq key (fst p)) g) eqn:Ex.
  - rewrite <- E. exact Hnd.
  - rewrite map_app, <- E. simpl.
    apply NoDup_app; [exact Hnd | constructor; [intros []| constructor] |].
    intros x Hx [Hk|[]]. subst x.
    apply (existsb_py_eq_hash key g Hh) in Hx. congruence.
Qed.

Lemma group_add_in (key : value) (d : dict) (g : list (value * list dict)) :
  (forall k ds, In (k, ds) g -> hashable k = true) ->
  NoDup (map (fun p => hash_key (fst p)) g) ->
  forall k ds, In (k, ds) (group_add key d g) ->
    (In (k, ds) g /\ py_eq key k = false) \/
    (exists ds0, In (k, ds0) g /\ py_eq key k = true /\ ds = (ds0 ++ [d])%list) \/
    (existsb (fun p => py_eq key (fst p)) g = false /\ k = key /\ ds = [d]).
Proof.
  induction g as [|[k0 ds0] g IH]; intros Hh Hnd k ds Hin; simpl in *.
  - destruct Hin as [Heq|[]]. inversion Heq; subst. right; right. auto.
  - inversion Hnd as [|? ? Hnot Hnd']; subst.
    destruct (py_eq key k0) eqn:E0; simpl in *.
    + destruct Hin as [Heq|Hin].
      * inversion Heq; subst. right; left. exists ds0. auto.
      * left. split; [right; exact Hin|].
        apply py_eq_hashable_false; [eapply Hh; right; exact Hin|].
        intros Ek. apply Hnot.
        apply (py_eq_hash_key key k0 (Hh k0 ds0 (or_introl eq_refl))) in E0.
        rewrite <- E0, Ek. apply (in_map (fun p => hash_key (fst p)) g (k, ds) Hin).
    + destruct Hin as [Heq|Hin].
      * inversion Heq; subst. left. auto.
      * destruct (IH (fun k' ds' H' => Hh k' ds' (or_intror H')) Hnd' k ds Hin)
          as [[H1 H2]|[[ds1 [H1 [H2 H3]]]|[H1 [H2 H3]]]].
        -- left. auto.
        -- right; left. exists ds1. auto.
        -- right; right. auto.
Qed.

Lemma group_add_keeps (key : value) (d : dict) (g : list (value * list dict)) :
  forall k ds, In (k, ds) g -> exists ds', In (k, ds') (group_add key d g).
Proof.
  induction g as [|[k0 ds0] g IH]; intros k ds Hin; simpl in *; [contradiction|].
  destruct (py_eq key k0); destruct Hin as [Heq|Hin].
  - inversion Heq; subst. eexists; left; reflexivity.
  - exists ds. right; exact Hin.
  - inversion Heq; subst. eexists; left; reflexivity.
  - destruct (IH k ds Hin) as [ds' H']. exists ds'. right; exact H'.
Qed.

Lemma group_add_has (key : value) (d : dict) (g : list (value * list dict)) :
  hashable key = true ->
  exists k ds, In (k, ds) (group_add key d g) /\ py_eq key k = true.
Proof.
  intros Hk. induction g as [|[k0 ds0] g IH]; simpl.
  - exists key, [d]. split; [left; reflexivity | apply py_eq_refl_hashable; exact Hk].
  - destruct (py_eq key k0) eqn:E.
    + exists k0, (ds0 ++ [d])%list. split; [left; reflexivity | exact E].
    + destruct IH as [k [ds [H1 H2]]]. exists k, ds. split; [right; exact H1 | exact H2].
Qed.

Lemma groups_of_step (field : string) (pre : list dict) (g : list (value * list dict)) (d : dict) :
  hashable (_get_nested_value d field) = true ->
  groups_of field pre g ->
  groups_of field (pre ++ [d]) (group_add (_get_nested_value d field) d g).
Proof.
  intros Hk [Hnd [Hg Hc]].
  assert (Hh : forall k ds, In (k, ds) g -> hashable k = true)
    by (intros k ds H; apply (Hg k ds H)).
  split; [apply group_add_NoDup; assumption|]. split.
  - intros k ds Hin. rewrite filter_app. simpl.
    destruct (group_add_in _ d g Hh Hnd k ds Hin)
      as [[H1 H2]|[[ds0 [H1 [H2 H3]]]|[H1 [H2 H3]]]].
    + destruct (Hg k ds H1) as [Ha [Hb Hd]]. rewrite H2, app_nil_r. auto.
    + destruct (Hg k ds0 H1) as [Ha [Hb Hd]]. rewrite H2. subst ds.
      split; [exact Ha|]. split; [destruct ds0; discriminate|]. rewrite <- Hd. reflexivity.
    + subst k ds. split; [exact Hk|]. split; [discriminate|].
      rewrite (py_eq_refl_hashable _ Hk).
      replace (filter _ pre) with (@nil dict); [reflexivity|].
      symmetry. apply filter_none.
      intros d' Hd'. destruct (py_eq (_get_nested_value d' field) _) eqn:E; [|reflexivity].
      exfalso. destruct (Hc d' Hd') as [k' [ds' [Hin' He']]].
      apply (py_eq_hash_key _ _ Hk) in E.
      apply (py_eq_hash_key _ _ (Hh k' ds' Hin')) in He'.
      assert (Hx : existsb (fun p => py_eq (_get_nested_value d field) (fst p)) g = true).
      { apply existsb_exists. exists (k', ds'). split; [exact Hin'|].
        simpl. apply py_eq_hash_key; [exact (Hh k' ds' Hin') | congruence]. }
      congruence.
  - intros d' Hin. apply in_app_or in Hin. destruct Hin as [Hin|[Heq|[]]].
    + destruct (Hc d' Hin) as [k [ds [H1 H2]]].
      destruct (group_add_keeps (_get_nested_value d field) d g k ds H1) as [ds' H'].
      exists k, ds'. auto.
    + subst d'. apply group_add_has. exact Hk.
Qed.

Lemma group_loop_groups (field : string) (data : list dict) :
  forall pre g,
    Forall (fun d => hashable (_get_nested_value d field) = true) data ->
    groups_of field pre g ->
    exists g', group_loop field data g = Ok g' /\ groups_of field (pre ++ data) g'.
Proof.
  induction data as [|d data IH]; intros pre g Hall Hg; simpl.
  - exists g. rewrite app_nil_r. auto.
  - inversion Hall as [|? ? Hd Hall']; subst. rewrite Hd.
    destruct (IH (pre ++ [d])%list _ Hall' (groups_of_step field pre g d Hd Hg)) as [g' [H1 H2]].
    exists g'. split; [exact H1|]. rewrite <- app_assoc in H2. exact H2.
Qed.

Lemma group_loop_unhashable (field : string) (data : list dict) :
  forall g,
    Exists (fun d => hashable (_get_nested_value d field) = false) data ->
    group_loop field data g = Raise TypeError.
Proof.
  induction data as [|d data IH]; intros g Hex; simpl; [inversion Hex|].
  destruct (hashable (_get_nested_value d field)) eqn:E.
  - apply IH. inversion Hex; subst; [congruence | assumption].
  - reflexivity.
Qed.

Lemma groups_of_nil (field : string) : groups_of field [] [].
Proof.
  split; [constructor|]. split; intros; contradiction.
Qed.

(** C4 (as amended).  [group_by] partitions the document set by the
    resolved value itself, not by its string: the keys of the result are
    pairwise unequal values, each group is exactly the documents whose
    resolved value equals the key, in the order of the document set, every
    document belongs to a group, and the documents whose value is null,
    absent or the empty mapping form the group of key [None].  When some
    resolved value is a list or a non-empty mapping, which cannot be a
    key, the call raises [TypeError]. *)
Theorem group_by_partitions_by_value (field : string) (c : collection) :
  (Forall (fun d => hashable (_get_nested_value d field) = true) (documents c) ->
   exists g, group_by field c = Ok g /\
     groups_of field (documents c) g /\
     (forall d, In d (documents c) -> _get_nested_value d field = VNull ->
        exists ds, In (VNull, ds) g /\ In d ds)) /\
  (Exists (fun d => hashable (_get_nested_value d field) = false) (documents c) ->
   group_by field c = Raise TypeError).
Proof.
  split.
  - intros Hall.
    destruct (group_loop_groups field (documents c) [] [] Hall (groups_of_nil field))
      as [g [H1 H2]].
    exists g. split; [exact H1|]. split; [exact H2|].
    intros d Hin Hnull. destruct H2 as [_ [Hg Hc]].
    destruct (Hc d Hin) as [k [ds [Hk He]]].
    rewrite Hnull in He. simpl in He. destruct k; try discriminate.
    exists ds. split; [exact Hk|].
    destruct (Hg _ _ Hk) as [_ [_ Hd]]. rewrite Hd. apply filter_In.
    split; [exact Hin|]. rewrite Hnull. reflexivity.
  - apply group_loop_unhashable.
Qed.

(** ** The empty mapping *)

(** C10.  A field that resolves to the empty mapping is, for
    [_get_nested_value] and so for indexing, aggregation and grouping,
    the same as an absent field: it resolves to null, adds no index
    entry, contributes no value to [aggregate], and its document goes to
    the group of key [None].  [_match] resolves the same field to the
    mapping itself: the document does not match a query for null on that
    field, where a document with the key missing does. *)
Theorem empty_mapping_treated_as_absent (doc : dict) (field : string) :
  match_walk (VDict doc) (split_dot field) = Some (VDict []) ->
  _get_nested_value doc field = VNull
  /\ (forall other, absent (VDict other) (split_dot field) = true ->
        _get_nested_value other field = _get_nested_value doc field)
  /\ (forall ix, update_index doc field ix = Ok ix)
  /\ (forall data, agg_values field (doc :: data) = agg_values field data)
  /\ (forall c, In doc (documents c) ->
        Forall (fun d => hashable (_get_nested_value d field) = true) (documents c) ->
        exists g ds, group_by field c = Ok g /\ In (VNull, ds) g /\ In doc ds)
  /\ _match doc [(field, VNull)] = Ok false
  /\ (forall other, match_walk (VDict other) (split_dot field) = Some VNull ->
        _match other [(field, VNull)] = Ok true).
Proof.
  intros H. pose proof (empty_mapping_resolves_to_null doc field H) as Hn.
  split; [exact Hn|]. split; [|split; [|split; [|split; [|split]]]].
  - intros other Ha. rewrite Hn. apply absent_resolves_to_null. exact Ha.
  - intros ix. unfold update_index. rewrite Hn. reflexivity.
  - intros data. unfold agg_values. simpl. rewrite Hn. reflexivity.
  - intros c Hin Hall.
    destruct (group_loop_groups field (documents c) [] [] Hall (groups_of_nil field))
      as [g [H1 [_ [Hg Hc]]]].
    destruct (Hc doc Hin) as [k [ds [Hk He]]].
    rewrite Hn in He. simpl in He. destruct k; try discriminate.
    exists g, ds. split; [exact H1|]. split; [exact Hk|].
    destruct (Hg _ _ Hk) as [_ [_ Hd]]. rewrite Hd. apply filter_In.
    split; [exact Hin|]. rewrite Hn. reflexivity.
  - simpl. rewrite H. reflexivity.
  - intros other Ho. simpl. rewrite Ho. reflexivity.
Qed.

(** ** Aggregation *)





(** The values [aggregate] keeps are the resolved values that pass
    [isinstance(_, (int, float))]; over none of them [sum] and [avg] are
    0 and [min], [max] are null; an unknown operation gives null. *)
Lemma aggregate_cases (field operation : string) (c : collection) :
  let values := agg_values field (documents c) in
  (forall v, In v values <->
     exists d, In d (documents c) /\ _get_nested_value d field = v /\ is_number v = true)
  /\ aggregate field "sum" c = AggValue (VInt (py_sum values))
  /\ (values <> [] ->
        aggregate field "avg" c = AggQuot (py_sum values) (Z.of_nat (List.length values)))
  /\ (values = [] ->
        aggregate field "sum" c = AggValue (VInt 0) /\
        aggregate field "avg" c = AggValue (VInt 0) /\
        aggregate field "min" c = AggValue VNull /\
        aggregate field "max" c = AggValue VNull)
  /\ (operation <> "sum" -> operation <> "avg" -> operation <> "min" -> operation <> "max" ->
        aggregate field operation c = AggValue VNull).
Proof.
  intros values. split; [|split; [|split; [|split]]].
  - intros v. unfold values, agg_values. rewrite filter_In, in_map_iff. split.
    + intros [[d [H1 H2]] H3]. exists d. auto.
    + intros [d [H1 [H2 H3]]]. split; [exists d; auto | exact H3].
  - reflexivity.
  - intros Hne. unfold aggregate. fold values. simpl. destruct values; [contradiction | reflexivity].
  - intros He. unfold aggregate. fold values. rewrite He. simpl. auto.
  - intros H1 H2 H3 H4. unfold aggregate.
    apply String.eqb_neq in H1, H2, H3, H4. rewrite H1, H2, H3, H4. reflexivity.
Qed.

(** ** Dictionaries *)

Lemma dict_set_absent {V} (k : string) (v : V) (d : list (string * V)) :
  has_key k d = false -> dict_set k v d = (d ++ [(k, v)])%list.
Proof.
  unfold has_key. induction d as [|[k' v'] d IH]; simpl; [reflexivity|].
  destruct (String.eqb k k'); [discriminate|]. intros H. rewrite IH by exact H. reflexivity.
Qed.

Lemma dict_get_set_same {V} (k : string) (v : V) (d : list (string * V)) :
  dict_get k (dict_set k v d) = Some v.
Proof.
  induction d as [|[k' v'] d IH]; simpl; [rewrite String.eqb_refl; reflexivity|].
  destruct (String.eqb k k') eqn:E; simpl; rewrite E; [reflexivity | exact IH].
Qed.

Lemma dict_get_set_other {V} (k k' : string) (v : V) (d : list (string * V)) :
  String.eqb k k' = false -> dict_get k (dict_set k' v d) = dict_get k d.
Proof.
  intros Hk. induction d as [|[k0 v0] d IH]; simpl; [rewrite Hk; reflexivity|].
  destruct (String.eqb k' k0) eqn:E; simpl.
  - apply String.eqb_eq in E. subst k0. rewrite Hk. reflexivity.
  - rewrite IH. reflexivity.
Qed.

Lemma dict_set_forallb {V} (Q : V -> bool) (k : string) (v : V) (d : list (string * V)) :
  forallb (fun b => Q (snd b)) d = true -> Q v = true ->
  forallb (fun b => Q (snd b)) (dict_set k v d) = true.
Proof.
  intros Hd Hv. induction d as [|[k' v'] d IH]; simpl in *; [rewrite Hv; reflexivity|].
  apply andb_true_iff in Hd. destruct Hd as [H1 H2].
  destruct (String.eqb k k'); simpl; [rewrite Hv, H2 | rewrite H1, IH by exact H2]; reflexivity.
Qed.

Lemma dict_get_forallb {V} (Q : V -> bool) (k : string) (v : V) (d : list (string * V)) :
  forallb (fun b => Q (snd b)) d = true -> dict_get k d = Some v -> Q v = true.
Proof.
  induction d as [|[k' v'] d IH]; simpl; [discriminate|].
  intros Hd. apply andb_true_iff in Hd. destruct Hd as [H1 H2].
  destruct (String.eqb k k'); [intros E; inversion E; subst; exact H1 | apply IH; exact H2].
Qed.

Lemma dict_update_get_other (k : string) (updates : dict) :
  has_key k updates = false ->
  forall d, dict_get k (dict_update d updates) = dict_get k d.
Proof.
  unfold dict_update, has_key.
  induction updates as [|[k' v'] updates IH]; intros H d; simpl in *; [reflexivity|].
  destruct (String.eqb k k') eqn:E; [discriminate|].
  rewrite IH by exact H. apply dict_get_set_other. exact E.
Qed.

(** ** Index maintenance never fails on a document that has an [_id] *)

Lemma update_index_total (doc : dict) (key : string) (ix : index) :
  has_key "_id" doc = true -> exists ix', update_index doc key ix = Ok ix'.
Proof.
  unfold has_key, update_index, getitem. intros H.
  destruct (dict_get "_id" doc) as [id|]; [|discriminate].
  destruct (_get_nested_value doc key); simpl; eauto.
Qed.

Lemma _update_indexes_total (doc : dict) (ixs : index_map) :
  has_key "_id" doc = true -> exists ixs', _update_indexes doc ixs = Ok ixs'.
Proof.
  intros H. induction ixs as [|[key ix] ixs [rest IH]]; simpl; [eauto|].
  destruct (update_index_total doc key ix H) as [ix' E]. rewrite E, IH. simpl. eauto.
Qed.

Lemma update_indexes_all_total (docs : list dict) :
  forall ixs, Forall (fun d => has_key "_id" d = true) docs ->
              exists ixs', update_indexes_all docs ixs = Ok ixs'.
Proof.
  induction docs as [|d docs IH]; intros ixs H; simpl; [eauto|].
  inversion H as [|? ? Hd Hds]; subst.
  destruct (_update_indexes_total d ixs Hd) as [ixs1 E]. rewrite E. simpl. apply IH. exact Hds.
Qed.

Lemma stored_has_id (uuid : string) (d : dict) : has_key "_id" (stored uuid d) = true.
Proof.
  unfold stored. destruct (has_key "_id" d) eqn:E; [exact E|].
  rewrite <- (dict_set_absent "_id" (VStr uuid) d E).
  unfold has_key. rewrite dict_get_set_same. reflexivity.
Qed.

Lemma insert_one_total (uuid : string) (d : dict) (c : collection) :
  exists ixs, _update_indexes (stored uuid d) (indexes c) = Ok ixs /\
    insert_one uuid d c =
    Ok {| documents := (documents c ++ [stored uuid d])%list; indexes := ixs;
          index_file := Some ixs |}.
Proof.
  destruct (_update_indexes_total (stored uuid d) (indexes c) (stored_has_id uuid d)) as [ixs E].
  exists ixs. split; [exact E|]. unfold insert_one.
  replace (if has_key "_id" d then d else dict_set "_id" (VStr uuid) d) with (stored uuid d).
  - rewrite E. reflexivity.
  - unfold stored. destruct (has_key "_id" d) eqn:H; [reflexivity|].
    symmetry. apply dict_set_absent. exact H.
Qed.

(** ** Identifiers *)

Lemma ids_unique_app (docs : list dict) (d : dict) :
  ids_unique (docs ++ [d]) = ids_unique docs && negb (existsb (fun e => same_id e d) docs).
Proof.
  induction docs as [|e docs IH]; simpl; [reflexivity|].
  rewrite IH, existsb_app. simpl. rewrite orb_false_r.
  destruct (existsb (same_id e) docs), (same_id e d), (ids_unique docs),
    (existsb (fun e0 => same_id e0 d) docs); reflexivity.
Qed.

Lemma fresh_not_same_id (uuid : string) (d : dict) (docs : list dict) :
  has_key "_id" d = false -> id_fresh uuid docs = true ->
  existsb (fun e => same_id e (stored uuid d)) docs = false.
Proof.
  intros Hd Hf. unfold stored. rewrite Hd.
  rewrite <- (dict_set_absent "_id" (VStr uuid) d Hd).
  induction docs as [|e docs IH]; simpl in *; [reflexivity|].
  apply andb_true_iff in Hf. destruct Hf as [H1 H2]. rewrite (IH H2), orb_false_r.
  unfold same_id. rewrite dict_get_set_same.
  destruct (dict_get "_id" e); [|reflexivity]. apply negb_true_iff. exact H1.
Qed.

Lemma id_fresh_app (u uuid : string) (d : dict) (docs : list dict) :
  has_key "_id" d = false -> id_fresh u docs = true -> u <> uuid ->
  id_fresh u (docs ++ [stored uuid d]) = true.
Proof.
  intros Hd Hf Hne. unfold id_fresh in *. rewrite forallb_app.
  apply andb_true_iff. split; [exact Hf|]. simpl.
  unfold stored. rewrite Hd, <- (dict_set_absent "_id" (VStr uuid) d Hd), dict_get_set_same.
  simpl. apply String.eqb_neq in Hne. rewrite String.eqb_sym, Hne. reflexivity.
Qed.

Lemma insert_many_unique (items : list (string * dict)) :
  forall c,
    ids_unique (documents c) = true ->
    Forall (fun item => has_key "_id" (snd item) = false) items ->
    NoDup (map fst items) ->
    Forall (fun item => id_fresh (fst item) (documents c) = true) items ->
    exists c', insert_many items c = Ok c' /\ ids_unique (documents c') = true.
Proof.
  induction items as [|[uuid d] items IH]; intros c Hu Hno Hnd Hf; simpl; [eauto|].
  inversion Hno as [|? ? Hd Hno']; subst. inversion Hnd as [|? ? Hnotin Hnd']; subst.
  inversion Hf as [|? ? Hfu Hf']; subst. simpl in *.
  destruct (insert_one_total uuid d c) as [ixs [_ E]]. rewrite E. simpl.
  apply IH; simpl; try assumption.
  - rewrite ids_unique_app, Hu, (fresh_not_same_id uuid d _ Hd Hfu). reflexivity.
  - rewrite Forall_forall in *. intros [u d'] Hin. simpl.
    apply id_fresh_app; [exact Hd | exact (Hf' _ Hin) |].
    intros ->. apply Hnotin. apply (in_map fst items (uuid, d') Hin).
Qed.

Lemma update_loop_ids (query updates : dict) (data : list dict) :
  has_key "_id" updates = false ->
  forall ixs r, update_loop query updates data ixs = Ok r ->
    map (dict_get "_id") (fst r) = map (dict_get "_id") data.
Proof.
  intros Hu. induction data as [|doc data IH]; intros ixs r H; simpl in *.
  - inversion H; subst. reflexivity.
  - apply bind_Ok in H. destruct H as [b [_ H]]. destruct b.
    + apply bind_Ok in H. destruct H as [ixs' [_ H]].
      apply bind_Ok in H. destruct H as [r' [Hr H]]. inversion H; subst. simpl.
      rewrite (IH _ _ Hr), (dict_update_get_other "_id" updates Hu). reflexivity.
    + apply bind_Ok in H. destruct H as [r' [Hr H]]. inversion H; subst. simpl.
      rewrite (IH _ _ Hr). reflexivity.
Qed.

Lemma filterM_incl {A} (p : A -> result bool) (xs ys : list A) :
  filterM p xs = Ok ys -> incl ys xs.
Proof.
  revert ys. induction xs as [|x xs IH]; intros ys H; simpl in *.
  - inversion H; subst. apply incl_refl.
  - apply bind_Ok in H. destruct H as [b [_ H]].
    apply bind_Ok in H. destruct H as [rest [Hr H]]. inversion H; subst.
    specialize (IH _ Hr). destruct b.
    + intros y [Hy|Hy]; [left; exact Hy | right; apply IH; exact Hy].
    + intros y Hy. right. apply IH. exact Hy.
Qed.

(** C3 (as amended).  Unique ids are kept by [insert_one] only for
    documents that come without an [_id] and get a generated id that is
    not in use: a run of such insertions, with generated ids that differ
    from each other and from the ids stored, leaves the ids pairwise
    distinct.  A document that comes with an [_id] is stored with it,
    whatever the ids already present.  The [_id] of a stored document is
    left alone by [insert_one], [create_index] and [delete], and by
    [update] when the patch has no [_id] field. *)
Theorem id_discipline :
  (forall items c,
     ids_unique (documents c) = true ->
     Forall (fun item => has_key "_id" (snd item) = false) items ->
     NoDup (map fst items) ->
     Forall (fun item => id_fresh (fst item) (documents c) = true) items ->
     exists c', insert_many items c = Ok c' /\ ids_unique (documents c') = true)
  /\ (forall uuid d c, exists c',
        insert_one uuid d c = Ok c' /\
        documents c' = (documents c ++ [stored uuid d])%list)
  /\ (forall query updates c c',
        has_key "_id" updates = false -> update query updates c = Ok c' ->
        map (dict_get "_id") (documents c') = map (dict_get "_id") (documents c))
  /\ (forall field c c', create_index field c = Ok c' -> documents c' = documents c)
  /\ (forall query c c', delete query c = Ok c' -> incl (documents c') (documents c)).
Proof.
  split; [exact insert_many_unique|]. split; [|split; [|split]].
  - intros uuid d c. destruct (insert_one_total uuid d c) as [ixs [_ E]].
    eexists. split; [exact E | reflexivity].
  - intros query updates c c' Hu H. unfold update in H.
    apply bind_Ok in H. destruct H as [r [Hr H]]. inversion H; subst. simpl.
    eapply update_loop_ids; eassumption.
  - intros field c c' H. unfold create_index in H.
    apply bind_Ok in H. destruct H as [ixs [_ H]]. inversion H; subst. reflexivity.
  - intros query c c' H. unfold delete in H.
    apply bind_Ok in H. destruct H as [nd [Hnd H]].
    apply bind_Ok in H. destruct H as [ixs [_ H]]. inversion H; subst. simpl.
    eapply filterM_incl. exact Hnd.
Qed.

(** ** What [_update_indexes] records *)

Lemma update_index_nonnull (doc : dict) (key : string) (ix : index) :
  _get_nested_value doc key <> VNull ->
  update_index doc key ix =
  (let s := py_str (_get_nested_value doc key) in
   let ix1 := if has_key s ix then ix else dict_set s [] ix in
   id <- getitem "_id" doc ;;
   Ok (if py_in id (bucket s ix1) then ix1 else dict_set s (bucket s ix1 ++ [id])%list ix1)).
Proof.
  unfold update_index. destruct (_get_nested_value doc key); intros H;
    [contradiction | reflexivity ..].
Qed.

Lemma _update_indexes_get (doc : dict) (k : string) (ixs : index_map) :
  forall ixs' ix',
    _update_indexes doc ixs = Ok ixs' -> dict_get k ixs' = Some ix' ->
    exists ix, dict_get k ixs = Some ix /\ update_index doc k ix = Ok ix'.
Proof.
  induction ixs as [|[key ix] ixs IH]; intros ixs' ix' H Hg; simpl in *.
  - inversion H; subst. discriminate.
  - apply bind_Ok in H. destruct H as [ix1 [H1 H]].
    apply bind_Ok in H. destruct H as [rest [H2 H]]. inversion H; subst. simpl in Hg.
    destruct (String.eqb k key) eqn:E.
    + apply String.eqb_eq in E. subst key. inversion Hg; subst. eauto.
    + apply (IH _ _ H2 Hg).
Qed.

Lemma _update_indexes_keys (doc : dict) (ixs : index_map) :
  forall ixs', _update_indexes doc ixs = Ok ixs' -> map fst ixs' = map fst ixs.
Proof.
  induction ixs as [|[key ix] ixs IH]; intros ixs' H; simpl in *.
  - inversion H; subst. reflexivity.
  - apply bind_Ok in H. destruct H as [ix1 [H1 H]].
    apply bind_Ok in H. destruct H as [rest [H2 H]]. inversion H; subst. simpl.
    rewrite (IH _ H2). reflexivity.
Qed.

Lemma py_in_app (x : value) (l1 l2 : list value) :
  py_in x (l1 ++ l2) = py_in x l1 || py_in x l2.
Proof. unfold py_in. apply existsb_app. Qed.

Lemma bucket_set (s : string) (ids : list value) (ix : index) :
  bucket s (dict_set s ids ix) = ids.
Proof. unfold bucket. rewrite dict_get_set_same. reflexivity. Qed.

Lemma has_key_set {V} (s : string) (v : V) (ix : list (string * V)) :
  has_key s (dict_set s v ix) = true.
Proof. unfold has_key. rewrite dict_get_set_same. reflexivity. Qed.

(** After [_update_indexes], the id of the document is in the bucket of
    its resolved value. *)
Lemma update_index_adds (doc : dict) (key : string) (ix ix' : index) (id : value) :
  update_index doc key ix = Ok ix' ->
  _get_nested_value doc key <> VNull ->
  dict_get "_id" doc = Some id -> hashable id = true ->
  has_key (py_str (_get_nested_value doc key)) ix' = true /\
  py_in id (bucket (py_str (_get_nested_value doc key)) ix') = true.
Proof.
  intros H Hv Hid Hh. rewrite (update_index_nonnull doc key ix Hv) in H.
  unfold getitem in H. rewrite Hid in H. simpl in H. inversion H as [E]. clear H.
  set (s := py_str (_get_nested_value doc key)) in *.
  set (ix1 := if has_key s ix then ix else dict_set s [] ix) in *.
  assert (H1 : has_key s ix1 = true).
  { unfold ix1. destruct (has_key s ix) eqn:Hk; [exact Hk | apply has_key_set]. }
  destruct (py_in id (bucket s ix1)) eqn:Hin.
  - split; assumption.
  - split; [apply has_key_set|]. rewrite bucket_set, py_in_app. simpl.
    rewrite (py_eq_refl_hashable id Hh). apply orb_true_r.
Qed.

Lemma bucket_hashable (s : string) (ix : index) :
  index_hashable ix = true -> forallb hashable (bucket s ix) = true.
Proof.
  intros H. unfold bucket. destruct (dict_get s ix) as [ids|] eqn:E; [|reflexivity].
  exact (dict_get_forallb (forallb hashable) s ids ix H E).
Qed.

Lemma update_index_hashable (doc : dict) (key : string) (ix ix' : index) (id : value) :
  dict_get "_id" doc = Some id -> hashable id = true ->
  index_hashable ix = true -> update_index doc key ix = Ok ix' ->
  index_hashable ix' = true.
Proof.
  intros Hid Hh Hix H.
  destruct (_get_nested_value doc key) eqn:Ev;
    [unfold update_index in H; rewrite Ev in H; inversion H; subst; exact Hix | ..].
  all: rewrite update_index_nonnull in H by (rewrite Ev; discriminate).
  all: unfold getitem in H; rewrite Hid in H; simpl in H; inversion H as [E]; clear H.
  all: set (sv := py_str (_get_nested_value doc key)) in *.
  all: set (ix1 := if has_key sv ix then ix else dict_set sv [] ix) in *.
  all: assert (H1 : index_hashable ix1 = true)
    by (unfold ix1; destruct (has_key sv ix);
        [exact Hix | apply (dict_set_forallb (forallb hashable)); [exact Hix | reflexivity]]).
  all: destruct (py_in id (bucket sv ix1)); [exact H1|].
  all: apply (dict_set_forallb (forallb hashable)); [exact H1|].
  all: rewrite forallb_app, (bucket_hashable sv ix1 H1); simpl; rewrite Hh; reflexivity.
Qed.

Lemma _update_indexes_hashable (doc : dict) (id : value) (ixs : index_map) :
  dict_get "_id" doc = Some id -> hashable id = true ->
  forall ixs', index_ids_hashable ixs = true -> _update_indexes doc ixs = Ok ixs' ->
               index_ids_hashable ixs' = true.
Proof.
  intros Hid Hh. induction ixs as [|[key ix] ixs IH]; intros ixs' Hix H; simpl in *.
  - inversion H; subst. reflexivity.
  - apply andb_true_iff in Hix. destruct Hix as [Ha Hb].
    apply bind_Ok in H. destruct H as [ix1 [H1 H]].
    apply bind_Ok in H. destruct H as [rest [H2 H]]. inversion H; subst. simpl.
    apply andb_true_iff. split; [|apply IH; assumption].
    exact (update_index_hashable doc key ix ix1 id Hid Hh Ha H1).
Qed.

(** ** Sets of ids *)

Lemma py_in_hash (x : value) (l : list value) :
  forallb hashable l = true ->
  (py_in x l = true <-> In (hash_key x) (map hash_key l)).
Proof.
  intros Hl. unfold py_in. rewrite existsb_exists, in_map_iff.
  rewrite forallb_forall in Hl. split.
  - intros [y [Hy He]]. exists y. split; [|exact Hy].
    symmetry. apply py_eq_hash_key; [apply Hl; exact Hy | exact He].
  - intros [y [He Hy]]. exists y. split; [exact Hy|].
    apply py_eq_hash_key; [apply Hl; exact Hy | symmetry; exact He].
Qed.

Lemma dedup_hashable (l : list value) :
  forallb hashable l = true -> forallb hashable (dedup l) = true.
Proof.
  induction l as [|x l IH]; simpl; [reflexivity|]. intros H.
  apply andb_true_iff in H. destruct H as [H1 H2].
  destruct (py_in x (dedup l)); simpl; [|rewrite H1]; apply IH; exact H2.
Qed.

Lemma dedup_keys (l : list value) :
  forallb hashable l = true ->
  forall h, In h (map hash_key (dedup l)) <-> In h (map hash_key l).
Proof.
  induction l as [|x l IH]; simpl; [tauto|]. intros H h.
  apply andb_true_iff in H. destruct H as [H1 H2]. specialize (IH H2).
  destruct (py_in x (dedup l)) eqn:E; simpl.
  - rewrite IH. split; [tauto|]. intros [Hx|Hx]; [|exact Hx].
    subst h. apply IH. apply (py_in_hash x (dedup l) (dedup_hashable l H2)). exact E.
  - rewrite IH. tauto.
Qed.

Lemma py_in_dedup (x : value) (l : list value) :
  forallb hashable l = true -> py_in x (dedup l) = py_in x l.
Proof.
  intros H. apply eq_true_iff_eq.
  rewrite (py_in_hash x (dedup l) (dedup_hashable l H)), (py_in_hash x l H).
  apply dedup_keys. exact H.
Qed.

Lemma set_inter_hashable (a b : list value) :
  forallb hashable a = true -> forallb hashable (set_inter a b) = true.
Proof.
  unfold set_inter. induction a as [|x a IH]; simpl; [reflexivity|]. intros H.
  apply andb_true_iff in H. destruct H as [H1 H2].
  destruct (py_in x b); simpl; [rewrite H1|]; apply IH; exact H2.
Qed.

Lemma py_in_set_inter (x : value) (a b : list value) :
  forallb hashable a = true -> forallb hashable b = true ->
  py_in x (set_inter a b) = py_in x a && py_in x b.
Proof.
  intros Ha Hb. apply eq_true_iff_eq.
  rewrite andb_true_iff, (py_in_hash x _ (set_inter_hashable a b Ha)),
    (py_in_hash x a Ha), (py_in_hash x b Hb).
  unfold set_inter. rewrite !in_map_iff. rewrite forallb_forall in Ha. split.
  - intros [y [He Hy]]. apply filter_In in Hy. destruct Hy as [Hy Hyb]. split.
    + exists y. auto.
    + apply (py_in_hash y b Hb) in Hyb. rewrite <- He. apply in_map_iff. exact Hyb.
  - intros [[y [He Hy]] Hxb]. exists y. split; [exact He|]. apply filter_In.
    split; [exact Hy|]. apply (py_in_hash y b Hb). rewrite He. apply in_map_iff. exact Hxb.
Qed.

(** ** Insert, then find by id *)

Lemma match_id_query (e : dict) (uuid : string) :
  _match e [("_id", VStr uuid)] =
  Ok (match dict_get "_id" e with Some a => py_eq a (VStr uuid) | None => false end).
Proof.
  simpl. destruct (dict_get "_id" e) as [a|]; [|reflexivity].
  destruct (py_eq a (VStr uuid)); reflexivity.
Qed.

Lemma first_match_skip (query : dict) (l rest : list dict) :
  (forall e, In e l -> _match e query = Ok false) ->
  first_match query (l ++ rest) = first_match query rest.
Proof.
  induction l as [|e l IH]; intros H; simpl; [reflexivity|].
  rewrite (H e (or_introl eq_refl)). simpl. apply IH. intros x Hx. apply H. right. exact Hx.
Qed.

Lemma filter_all {A} (l : list A) : filter (fun _ => true) l = l.
Proof. induction l as [|x l IH]; simpl; [reflexivity | rewrite IH; reflexivity]. Qed.

Lemma resolve_own_id (d : dict) (id : value) :
  dict_get "_id" d = Some id -> is_dict id = false -> _get_nested_value d "_id" = id.
Proof.
  intros H Hd. unfold _get_nested_value. simpl. rewrite H.
  destruct id; try discriminate; reflexivity.
Qed.

(** Filtering the loaded documents by the candidate ids. *)
Lemma filter_by_ids (ids : list value) (docs : list dict) :
  Forall (fun e => has_key "_id" e = true) docs ->
  filterM (fun doc => id <- getitem "_id" doc ;; Ok (py_in id ids)) docs =
  Ok (filter (fun doc => match dict_get "_id" doc with
                         | Some id => py_in id ids
                         | None => false
                         end) docs).
Proof.
  intros H. apply filterM_total. rewrite Forall_forall in H. intros e He.
  specialize (H e He). unfold has_key, getitem in *.
  destruct (dict_get "_id" e); [reflexivity | discriminate].
Qed.

(** C9.  Round trip: a document without [_id], inserted with a generated
    id that no stored document carries, is what [find_one] returns for
    that id, with the [_id] field added.  The state is one in which every
    stored document has an [_id] and every id recorded in an index is
    hashable. *)
Theorem insert_then_find_one (uuid : string) (d : dict) (c : collection) :
  has_key "_id" d = false ->
  id_fresh uuid (documents c) = true ->
  Forall (fun e => has_key "_id" e = true) (documents c) ->
  index_ids_hashable (indexes c) = true ->
  exists c', insert_one uuid d c = Ok c' /\
    find_one [("_id", VStr uuid)] c' = Ok (Some (d ++ [("_id", VStr uuid)])%list).
Proof.
  intros Hd Hf Hall Hh.
  destruct (insert_one_total uuid d c) as [ixs [E1 E]].
  assert (Es : stored uuid d = (d ++ [("_id", VStr uuid)])%list)
    by (unfold stored; rewrite Hd; reflexivity).
  rewrite Es in *. set (d' := (d ++ [("_id", VStr uuid)])%list) in *.
  assert (Hid : dict_get "_id" d' = Some (VStr uuid)).
  { unfold d'. rewrite <- (dict_set_absent "_id" (VStr uuid) d Hd). apply dict_get_set_same. }
  eexists. split; [exact E|].
  assert (Hall' : Forall (fun e => has_key "_id" e = true) (documents c ++ [d'])).
  { apply Forall_app. split; [exact Hall|]. constructor; [|constructor].
    unfold has_key. rewrite Hid. reflexivity. }
  match goal with |- find_one _ ?c0 = _ =>
    assert (Hc : exists f, f d' = true /\
               candidates [("_id", VStr uuid)] c0 = Ok (filter f (documents c0)))
  end.
  { unfold candidates, _query_using_indexes. simpl.
    destruct (dict_get "_id" ixs) as [ix'|] eqn:G;
      [|exists (fun _ => true); rewrite filter_all; auto].
    destruct (negb (Nat.eqb (List.length ix') 0) && has_key uuid ix') eqn:C;
      [|exists (fun _ => true); rewrite filter_all; auto].
    pose proof (_update_indexes_hashable d' (VStr uuid) (indexes c) Hid eq_refl ixs Hh E1) as Hh'.
    pose proof (dict_get_forallb index_hashable "_id" ix' ixs Hh' G) as Hix.
    unfold py_set. rewrite (bucket_hashable uuid ix' Hix). simpl.
    rewrite (filter_by_ids _ _ Hall').
    eexists. split; [|reflexivity]. simpl. rewrite Hid.
    rewrite (py_in_dedup _ _ (bucket_hashable uuid ix' Hix)).
    destruct (_update_indexes_get d' "_id" (indexes c) ixs ix' E1 G) as [ix [_ Hu]].
    pose proof (resolve_own_id d' (VStr uuid) Hid eq_refl) as Hr.
    destruct (update_index_adds d' "_id" ix ix' (VStr uuid) Hu) as [_ Hin];
      try rewrite Hr; try discriminate; auto.
    rewrite Hr in Hin. exact Hin. }
  destruct Hc as [f [Hfd Hc]]. unfold find_one. rewrite Hc. simpl.
  rewrite filter_app. simpl. rewrite Hfd.
  rewrite first_match_skip.
  - cbn [first_match]. rewrite match_id_query, Hid. simpl. rewrite String.eqb_refl. reflexivity.
  - intros e He. apply filter_In in He. destruct He as [He _].
    rewrite match_id_query. unfold id_fresh in Hf. rewrite forallb_forall in Hf.
    specialize (Hf e He). destruct (dict_get "_id" e); [|reflexivity].
    apply negb_true_iff in Hf. rewrite Hf. reflexivity.
Qed.

(** ** Delete *)

Lemma clear_indexes_keys (a b : index_map) :
  map fst a = map fst b -> clear_indexes a = clear_indexes b.
Proof.
  unfold clear_indexes. revert b. induction a as [|[k ix] a IH]; intros [|[k' ix'] b] H;
    simpl in *; try discriminate; [reflexivity|].
  inversion H; subst. rewrite (IH b) by assumption. reflexivity.
Qed.

Lemma clear_indexes_fst (a : index_map) : map fst (clear_indexes a) = map fst a.
Proof. unfold clear_indexes. rewrite map_map. reflexivity. Qed.

Lemma update_indexes_all_keys (docs : list dict) :
  forall ixs ixs', update_indexes_all docs ixs = Ok ixs' -> map fst ixs' = map fst ixs.
Proof.
  induction docs as [|d docs IH]; intros ixs ixs' H; simpl in *.
  - inversion H; subst. reflexivity.
  - apply bind_Ok in H. destruct H as [ixs1 [H1 H]].
    rewrite (IH _ _ H). apply (_update_indexes_keys d ixs ixs1 H1).
Qed.

Lemma delete_keeps_unmatched (query : dict) (docs : list dict) :
  Forall (fun d => _match d query = Ok false) docs ->
  filterM (fun doc => b <- _match doc query ;; Ok (negb b)) docs = Ok docs.
Proof.
  intros H. rewrite (filterM_total _ (fun _ => true)); [rewrite filter_all; reflexivity|].
  rewrite Forall_forall in H. intros d Hd. rewrite (H d Hd). reflexivity.
Qed.

(** C6 (as amended).  A [delete] whose query matches no document leaves
    the document set unchanged and replaces every registered index by
    the index rebuilt from the document set, for the same registered
    fields; doing the same [delete] again changes nothing.  The indexes
    are therefore unchanged only when they already are what a rebuild
    gives. *)
Theorem delete_of_nothing_rebuilds_indexes (query : dict) (c : collection) :
  Forall (fun d => _match d query = Ok false) (documents c) ->
  Forall (fun d => has_key "_id" d = true) (documents c) ->
  exists ixs,
    _rebuild_indexes (documents c) (indexes c) = Ok ixs /\
    map fst ixs = map fst (indexes c) /\
    delete query c =
      Ok {| documents := documents c; indexes := ixs; index_file := Some ixs |} /\
    delete query {| documents := documents c; indexes := ixs; index_file := Some ixs |} =
      Ok {| documents := documents c; indexes := ixs; index_file := Some ixs |}.
Proof.
  intros Hm Hid.
  destruct (update_indexes_all_total (documents c) (clear_indexes (indexes c)) Hid) as [ixs E].
  assert (Hk : map fst ixs = map fst (indexes c)).
  { rewrite (update_indexes_all_keys _ _ _ E). apply clear_indexes_fst. }
  exists ixs. split; [exact E|]. split; [exact Hk|]. split.
  - unfold delete. rewrite (delete_keeps_unmatched query _ Hm). simpl.
    unfold _rebuild_indexes. rewrite E. reflexivity.
  - unfold delete. simpl. rewrite (delete_keeps_unmatched query _ Hm). simpl.
    unfold _rebuild_indexes. rewrite (clear_indexes_keys ixs (indexes c) Hk), E. reflexivity.
Qed.

(** ** Index consultation *)

Lemma query_loop_unindexed (ixs : index_map) (clause : string * value) (query : dict)
  (m : option (list value)) :
  clause_indexed ixs clause = false -> query_loop ixs (clause :: query) m = Ok None.
Proof.
  destruct clause as [f v]. unfold clause_indexed. simpl.
  destruct (is_dict v); [reflexivity|]. simpl.
  destruct (dict_get f ixs) as [ix|]; [|reflexivity].
  intros H. rewrite H. reflexivity.
Qed.

Lemma query_loop_indexed (ixs : index_map) (clause : string * value) (query : dict)
  (m : option (list value)) :
  index_ids_hashable ixs = true -> clause_indexed ixs clause = true ->
  forallb hashable (clause_bucket ixs clause) = true /\
  query_loop ixs (clause :: query) m =
  query_loop ixs query
    (Some (match m with
           | None => dedup (clause_bucket ixs clause)
           | Some ids => set_inter ids (dedup (clause_bucket ixs clause))
           end)).
Proof.
  destruct clause as [f v]. unfold clause_indexed, clause_bucket. simpl. intros Hh H.
  apply andb_true_iff in H. destruct H as [Hv H]. apply negb_true_iff in Hv. rewrite Hv.
  destruct (dict_get f ixs) as [ix|] eqn:G; [|discriminate]. rewrite H.
  pose proof (bucket_hashable (py_str v) ix (dict_get_forallb index_hashable f ix ixs Hh G)) as Hb.
  split; [exact Hb|]. unfold py_set. rewrite Hb. reflexivity.
Qed.

Lemma query_loop_skips (ixs : index_map) (query : dict) :
  index_ids_hashable ixs = true ->
  forallb (clause_indexed ixs) query = false ->
  forall m, query_loop ixs query m = Ok None.
Proof.
  intros Hh. induction query as [|clause query IH]; intros H m; [discriminate|].
  simpl in H. destruct (clause_indexed ixs clause) eqn:E.
  - destruct (query_loop_indexed ixs clause query m Hh E) as [_ Hq]. rewrite Hq.
    apply IH. exact H.
  - apply query_loop_unindexed. exact E.
Qed.

Lemma query_loop_intersects (ixs : index_map) (query : dict) :
  index_ids_hashable ixs = true ->
  forallb (clause_indexed ixs) query = true ->
  forall m, forallb hashable m = true ->
    exists ids, query_loop ixs query (Some m) = Ok (Some ids) /\
      forall x, py_in x ids = true <->
        py_in x m = true /\
        forall clause, In clause query -> py_in x (clause_bucket ixs clause) = true.
Proof.
  intros Hh. induction query as [|clause query IH]; intros H m Hm.
  - exists m. split; [reflexivity|]. intros x. split; [intros Hx; split; [exact Hx | intros ? []]|tauto].
  - simpl in H. apply andb_true_iff in H. destruct H as [Hc Hq].
    destruct (query_loop_indexed ixs clause query (Some m) Hh Hc) as [Hb E]. rewrite E.
    destruct (IH Hq _ (set_inter_hashable m (dedup (clause_bucket ixs clause)) Hm))
      as [ids [E' Hids]].
    exists ids. split; [exact E'|]. intros x. rewrite Hids.
    rewrite (py_in_set_inter x m _ Hm (dedup_hashable _ Hb)), andb_true_iff,
      (py_in_dedup x _ Hb).
    split.
    + intros [[H1 H2] H3]. split; [exact H1|]. intros cl [Hcl|Hcl]; [subst; exact H2 | auto].
    + intros [H1 H2]. split; [split; [exact H1 | apply H2; left; reflexivity]|].
      intros cl Hcl. apply H2. right. exact Hcl.
Qed.

Lemma consult_indexed (ixs : index_map) (query : dict) :
  index_ids_hashable ixs = true ->
  query <> [] -> forallb (clause_indexed ixs) query = true ->
  exists ids,
    _query_using_indexes ixs query = Ok (Some ids) /\
    (forall x, py_in x ids = true <->
       forall clause, In clause query -> py_in x (clause_bucket ixs clause) = true).
Proof.
  intros Hh Hne H. destruct query as [|clause query]; [contradiction|].
  simpl in H. apply andb_true_iff in H. destruct H as [Hc Hq].
  destruct (query_loop_indexed ixs clause query None Hh Hc) as [Hb E].
  destruct (query_loop_intersects ixs query Hh Hq _ (dedup_hashable _ Hb))
    as [ids [E' Hids]].
  exists ids. split; [unfold _query_using_indexes; rewrite E; exact E'|].
  intros x. rewrite Hids, (py_in_dedup x _ Hb). split.
  - intros [H1 H2] cl [Hcl|Hcl]; [subst; exact H1 | auto].
  - intros H. split; [apply H; left; reflexivity | intros cl Hcl; apply H; right; exact Hcl].
Qed.

(** C5 (as amended).  With every recorded id hashable: when every clause
    of a non-empty query is a plain value on a field that has a
    registered, non-empty index holding a bucket for the stringified
    value, the candidate set is the intersection of those buckets, and
    [find] tests exactly the documents whose [_id] is a candidate.  When
    any clause is not so, in particular when its stringified value has
    no bucket, consultation gives no candidate set at all and [find]
    falls back on the full scan. *)
Theorem index_consultation_contract (query : dict) (c : collection) :
  index_ids_hashable (indexes c) = true ->
  (query <> [] -> forallb (clause_indexed (indexes c)) query = true ->
   exists ids,
     _query_using_indexes (indexes c) query = Ok (Some ids) /\
     (forall x, py_in x ids = true <->
        forall clause, In clause query ->
          py_in x (clause_bucket (indexes c) clause) = true) /\
     find query c =
       (data <- filterM (fun doc => id <- getitem "_id" doc ;; Ok (py_in id ids))
                  (documents c) ;;
        filterM (fun doc => _match doc query) data))
  /\ (forallb (clause_indexed (indexes c)) query = false ->
      _query_using_indexes (indexes c) query = Ok None /\
      find query c = filterM (fun doc => _match doc query) (documents c))
  /\ (query = [] ->
      _query_using_indexes (indexes c) query = Ok None /\
      find query c = Ok (documents c)).
Proof.
  intros Hh. split; [|split].
  - intros Hne H.
    destruct (consult_indexed (indexes c) query Hh Hne H) as [ids [Eq Hids]].
    exists ids. split; [exact Eq|]. split; [exact Hids|].
    unfold find, candidates. rewrite Eq. reflexivity.
  - intros H.
    assert (Eq : _query_using_indexes (indexes c) query = Ok None)
      by (apply query_loop_skips; assumption).
    split; [exact Eq|]. unfold find, candidates. rewrite Eq. reflexivity.
  - intros ->. split; [reflexivity|]. unfold find, candidates. simpl.
    rewrite (filterM_total _ (fun _ => true)); [rewrite filter_all; reflexivity | reflexivity].
Qed.

(** ** What the indexes guarantee *)

Lemma bind_ret {A} (m : result A) : (x <- m ;; Ok x) = m.
Proof. destruct m; reflexivity. Qed.

Lemma filterM_Ok_filter {A} (p : A -> result bool) (q : A -> bool) (xs : list A) :
  forall r, filterM p xs = Ok r ->
            (forall x b, In x xs -> p x = Ok b -> q x = b) -> r = filter q xs.
Proof.
  induction xs as [|x xs IH]; intros r H Hq; simpl in *.
  - inversion H; subst. reflexivity.
  - apply bind_Ok in H. destruct H as [b [Hb H]].
    apply bind_Ok in H. destruct H as [rest [Hr H]]. inversion H; subst.
    rewrite (Hq x b (or_introl eq_refl) Hb).
    rewrite (IH rest Hr) by (intros y c Hy; apply Hq; right; exact Hy). reflexivity.
Qed.

Lemma filterM_filter {A} (p : A -> result bool) (g : A -> bool) (xs : list A) :
  forall r full,
    filterM p (filter g xs) = Ok r -> filterM p xs = Ok full -> r = filter g full.
Proof.
  induction xs as [|x xs IH]; intros r full Hr Hf; simpl in *.
  - inversion Hr; inversion Hf; subst. reflexivity.
  - apply bind_Ok in Hf. destruct Hf as [b [Hb Hf]].
    apply bind_Ok in Hf. destruct Hf as [rest [Hrest Hf]]. inversion Hf; subst.
    destruct (g x) eqn:G.
    + simpl in Hr. rewrite Hb in Hr. simpl in Hr.
      apply bind_Ok in Hr. destruct Hr as [r' [Hr' Hr]]. inversion Hr; subst.
      rewrite (IH r' rest Hr' Hrest). destruct b; simpl; [rewrite G|]; reflexivity.
    + rewrite (IH r rest Hr Hrest). destruct b; simpl; [rewrite G|]; reflexivity.
Qed.

Lemma filterM_filter_same {A} (p : A -> result bool) (g : A -> bool) (xs : list A) :
  (forall x, In x xs -> exists b, p x = Ok b) ->
  (forall x, In x xs -> p x = Ok true -> g x = true) ->
  filterM p (filter g xs) = filterM p xs.
Proof.
  induction xs as [|x xs IH]; intros Ht Hg; simpl; [reflexivity|].
  assert (IH' : filterM p (filter g xs) = filterM p xs).
  { apply IH; intros y Hy; [apply Ht | apply Hg]; right; exact Hy. }
  destruct (Ht x (or_introl eq_refl)) as [b Hb].
  destruct (g x) eqn:G; simpl; rewrite Hb; simpl.
  - rewrite IH'. reflexivity.
  - destruct b; [rewrite (Hg x (or_introl eq_refl) Hb) in G; discriminate|].
    rewrite IH', bind_ret. reflexivity.
Qed.

Lemma candidates_filter (query : dict) (c : collection) (data : list dict) :
  candidates query c = Ok data -> exists g, data = filter g (documents c).
Proof.
  unfold candidates. intros H. apply bind_Ok in H. destruct H as [[ids|] [_ H]].
  - exists (fun doc => match dict_get "_id" doc with
                       | Some id => py_in id ids
                       | None => false
                       end).
    apply (filterM_Ok_filter _ _ _ _ H). intros x b _. unfold getitem.
    destruct (dict_get "_id" x); simpl; [intros E; inversion E; reflexivity | discriminate].
  - inversion H; subst. exists (fun _ => true). symmetry. apply filter_all.
Qed.

(** X1.  Index consultation never adds a result and never reorders the
    results: where both [find] and the full scan return, what [find]
    returns is the scan's result with some documents filtered out. *)
Lemma find_is_filter_of_scan (query : dict) (c : collection) (r full : list dict) :
  find query c = Ok r ->
  filterM (fun doc => _match doc query) (documents c) = Ok full ->
  exists g, r = filter g full.
Proof.
  unfold find. intros H Hfull. apply bind_Ok in H. destruct H as [data [Hc H]].
  destruct (candidates_filter query c data Hc) as [g ->].
  exists g. eapply filterM_filter; eassumption.
Qed.

Lemma index_complete_incl (docs docs' : list dict) (ixs : index_map) :
  incl docs' docs -> index_complete docs ixs -> index_complete docs' ixs.
Proof. intros Hi Hc d f ix id Hd. apply Hc. apply Hi. exact Hd. Qed.

Lemma dict_set_mono (s s0 : string) (x : value) (ids' : list value) (ix : index) :
  has_key s ix = true -> py_in x (bucket s ix) = true ->
  (py_in x (bucket s0 ix) = true -> py_in x ids' = true) ->
  has_key s (dict_set s0 ids' ix) = true /\ py_in x (bucket s (dict_set s0 ids' ix)) = true.
Proof.
  intros Hk Hx Hsub. destruct (String.eqb s s0) eqn:E.
  - apply String.eqb_eq in E. subst s0. rewrite has_key_set, bucket_set. auto.
  - unfold has_key, bucket in *. rewrite (dict_get_set_other s s0 ids' ix E). auto.
Qed.

Lemma bucket_missing (s : string) (ix : index) : has_key s ix = false -> bucket s ix = [].
Proof. unfold has_key, bucket. destruct (dict_get s ix); [discriminate | reflexivity]. Qed.

(** [_update_indexes] only adds: what was recorded stays recorded. *)
Lemma update_index_mono (doc : dict) (key s : string) (ix ix' : index) (x : value) :
  update_index doc key ix = Ok ix' ->
  has_key s ix = true -> py_in x (bucket s ix) = true ->
  has_key s ix' = true /\ py_in x (bucket s ix') = true.
Proof.
  intros H Hk Hx.
  destruct (_get_nested_value doc key) eqn:Ev;
    [unfold update_index in H; rewrite Ev in H; inversion H; subst; auto | ..].
  all: rewrite update_index_nonnull in H by (rewrite Ev; discriminate).
  all: apply bind_Ok in H; destruct H as [id [_ H]]; inversion H as [E]; clear H E.
  all: set (sv := py_str (_get_nested_value doc key)).
  all: set (ix1 := if has_key sv ix then ix else dict_set sv [] ix).
  all: assert (H1 : has_key s ix1 = true /\ py_in x (bucket s ix1) = true)
    by (unfold ix1; destruct (has_key sv ix) eqn:Hs; [auto|];
        apply dict_set_mono; auto; rewrite (bucket_missing sv ix Hs); discriminate).
  all: destruct H1 as [H1 H2]; destruct (py_in id (bucket sv ix1)); [auto|].
  all: apply dict_set_mono; auto; intros Hin; rewrite py_in_app, Hin; reflexivity.
Qed.

Lemma _update_indexes_complete (d : dict) (docs : list dict) (ixs ixs' : index_map) :
  _update_indexes d ixs = Ok ixs' ->
  index_complete docs ixs -> index_complete (d :: docs) ixs'.
Proof.
  intros H Hc e f ix' id He Hf Hid Hh Hv.
  destruct (_update_indexes_get d f ixs ixs' ix' H Hf) as [ix [Hg Hu]].
  destruct He as [He|He].
  - subst e. exact (update_index_adds d f ix ix' id Hu Hv Hid Hh).
  - destruct (Hc e f ix id He Hg Hid Hh Hv) as [H1 H2].
    exact (update_index_mono d f _ ix ix' id Hu H1 H2).
Qed.

Lemma update_indexes_all_complete (docs : list dict) :
  forall base ixs ixs',
    update_indexes_all docs ixs = Ok ixs' ->
    index_complete base ixs -> index_complete (base ++ docs) ixs'.
Proof.
  induction docs as [|d docs IH]; intros base ixs ixs' H Hc; simpl in H.
  - inversion H; subst. rewrite app_nil_r. exact Hc.
  - apply bind_Ok in H. destruct H as [ixs1 [H1 H]].
    apply (index_complete_incl ((d :: base) ++ docs)).
    + intros e He. apply in_app_or in He. apply in_or_app.
      destruct He as [He|[He|He]]; [left; right; exact He | left; left; exact He | right; exact He].
    + apply (IH (d :: base) ixs1 ixs' H). apply (_update_indexes_complete d base ixs ixs1 H1 Hc).
Qed.

Lemma index_complete_nil (ixs : index_map) : index_complete [] ixs.
Proof. intros d f ix id []. Qed.

Lemma update_loop_complete (query updates : dict) (data : list dict) :
  forall extra ixs r,
    update_loop query updates data ixs = Ok r ->
    index_complete (extra ++ data) ixs -> index_complete (extra ++ fst r) (snd r).
Proof.
  induction data as [|doc data IH]; intros extra ixs r H Hc; simpl in H.
  - inversion H; subst. exact Hc.
  - apply bind_Ok in H. destruct H as [b [_ H]]. destruct b.
    + apply bind_Ok in H. destruct H as [ixs' [Hu H]].
      apply bind_Ok in H. destruct H as [r' [Hr H]]. inversion H; subst. simpl.
      replace (extra ++ dict_update doc updates :: fst r')%list
        with ((extra ++ [dict_update doc updates]) ++ fst r')%list
        by (rewrite <- app_assoc; reflexivity).
      apply (IH _ ixs' r' Hr).
      apply (index_complete_incl (dict_update doc updates :: extra ++ doc :: data)).
      * intros e He. apply in_app_or in He. destruct He as [He|He].
        -- apply in_app_or in He. destruct He as [He|[He|[]]];
             [right; apply in_or_app; left; exact He | left; exact He].
        -- right. apply in_or_app. right. right. exact He.
      * apply (_update_indexes_complete _ _ ixs ixs' Hu Hc).
    + apply bind_Ok in H. destruct H as [r' [Hr H]]. inversion H; subst. simpl.
      replace (extra ++ doc :: fst r')%list with ((extra ++ [doc]) ++ fst r')%list
        by (rewrite <- app_assoc; reflexivity).
      apply (IH _ ixs r' Hr). rewrite <- app_assoc. exact Hc.
Qed.

(** X2.  The complete direction of index correctness is an invariant of the
    four mutating operations; [delete] and [create_index] establish it
    from any state. *)
Lemma index_complete_preserved :
  (forall uuid d c c', insert_one uuid d c = Ok c' ->
     index_complete (documents c) (indexes c) ->
     index_complete (documents c') (indexes c'))
  /\ (forall query updates c c', update query updates c = Ok c' ->
        index_complete (documents c) (indexes c) ->
        index_complete (documents c') (indexes c'))
  /\ (forall query c c', delete query c = Ok c' ->
        index_complete (documents c') (indexes c'))
  /\ (forall field c c', create_index field c = Ok c' ->
        index_complete (documents c') (indexes c')).
Proof.
  split; [|split; [|split]].
  - intros uuid d c c' H Hc. destruct (insert_one_total uuid d c) as [ixs [E1 E]].
    rewrite E in H. inversion H; subst. simpl.
    apply (index_complete_incl (stored uuid d :: documents c)).
    + intros e He. apply in_app_or in He. destruct He as [He|[He|[]]];
        [right; exact He | left; exact He].
    + apply (_update_indexes_complete _ _ _ _ E1 Hc).
  - intros query updates c c' H Hc. unfold update in H.
    apply bind_Ok in H. destruct H as [r [Hr H]]. inversion H; subst. simpl.
    apply (update_loop_complete query updates (documents c) [] (indexes c) r Hr Hc).
  - intros query c c' H. unfold delete in H.
    apply bind_Ok in H. destruct H as [nd [_ H]].
    apply bind_Ok in H. destruct H as [ixs [Hi H]]. inversion H; subst. simpl.
    apply (update_indexes_all_complete nd [] _ ixs Hi). apply index_complete_nil.
  - intros field c c' H. unfold create_index in H.
    apply bind_Ok in H. destruct H as [ixs [Hi H]]. inversion H; subst. simpl.
    apply (update_indexes_all_complete (documents c) [] _ ixs Hi). apply index_complete_nil.
Qed.

Lemma match_plain_total (d query : dict) :
  Forall (fun cl => is_dict (snd cl) = false) query -> exists b, _match d query = Ok b.
Proof.
  induction query as [|[k v] query IH]; intros H; simpl; [eauto|].
  inversion H as [|? ? Hv Hq]; subst. simpl in Hv.
  destruct (match_walk (VDict d) (split_dot k)) as [val|]; [|eauto].
  destruct v; try discriminate; (destruct (py_eq val _); [apply IH; exact Hq | eauto]).
Qed.

Lemma match_true_clause (d query : dict) (f s : string) :
  _match d query = Ok true -> In (f, VStr s) query ->
  match_walk (VDict d) (split_dot f) = Some (VStr s).
Proof.
  induction query as [|[k v] query IH]; intros H Hin; [contradiction|].
  simpl in H. destruct (match_walk (VDict d) (split_dot k)) as [val|] eqn:W; [|discriminate].
  destruct Hin as [Heq|Hin].
  - inversion Heq; subst. destruct (py_eq val (VStr s)) eqn:E; [|discriminate].
    destruct val; simpl in E; try discriminate.
    apply String.eqb_eq in E. subst. exact W.
  - apply IH; [|exact Hin].
    destruct v; try (destruct (py_eq val _); [exact H | discriminate]).
    destruct (match_ops d0 val) as [[|]|e]; simpl in H; [exact H | discriminate ..].
Qed.

Lemma find_scan_text (query : dict) (c : collection) :
  Forall (fun cl => exists s, snd cl = VStr s) query ->
  Forall (fun d => exists id, dict_get "_id" d = Some id /\ hashable id = true) (documents c) ->
  index_ids_hashable (indexes c) = true ->
  index_complete (documents c) (indexes c) ->
  find query c = filterM (fun d => _match d query) (documents c).
Proof.
  intros Htext Hids Hh Hc.
  destruct (forallb (clause_indexed (indexes c)) query) eqn:Hall.
  - destruct query as [|cl0 query0] eqn:Eq0; [reflexivity|]. rewrite <- Eq0 in *.
    assert (Hne : query <> []) by (rewrite Eq0; discriminate).
    destruct (consult_indexed (indexes c) query Hh Hne Hall) as [ids [Eq Hin]].
    unfold find, candidates. rewrite Eq. simpl.
    rewrite filter_by_ids.
    2:{ rewrite Forall_forall in *. intros e He. destruct (Hids e He) as [id [E _]].
        unfold has_key. rewrite E. reflexivity. }
    simpl. apply filterM_filter_same.
    + intros x _. apply match_plain_total. rewrite Forall_forall in *.
      intros cl Hcl. destruct (Htext cl Hcl) as [s ->]. reflexivity.
    + intros x Hx Hm. rewrite Forall_forall in Hids.
      destruct (Hids x Hx) as [id [Eid Hhid]]. rewrite Eid.
      apply Hin. intros [f v] Hcl. rewrite Forall_forall in Htext.
      destruct (Htext _ Hcl) as [s Hs]. simpl in Hs. subst v.
      rewrite forallb_forall in Hall. specialize (Hall _ Hcl).
      unfold clause_indexed in Hall. unfold clause_bucket. simpl in *.
      destruct (dict_get f (indexes c)) as [ix|] eqn:G; [|discriminate].
      pose proof (match_true_clause x query f s Hm Hcl) as Hw.
      assert (Hv : _get_nested_value x f = VStr s).
      { unfold _get_nested_value.
        rewrite (match_walk_nested_walk _ _ _ Hw) by discriminate. reflexivity. }
      destruct (Hc x f ix id Hx G Eid Hhid) as [_ Hb]; [rewrite Hv; discriminate|].
      rewrite Hv in Hb. exact Hb.
  - unfold find, candidates.
    rewrite (query_loop_skips (indexes c) query Hh Hall None : _query_using_indexes _ _ = _).
    reflexivity.
Qed.


(** ** [find_one] and [find] *)

Lemma first_match_of_filterM (query : dict) (data : list dict) :
  forall r, filterM (fun doc => _match doc query) data = Ok r ->
            first_match query data = Ok (hd_error r).
Proof.
  induction data as [|d data IH]; intros r H; simpl in *.
  - inversion H; subst. reflexivity.
  - apply bind_Ok in H. destruct H as [b [Hb H]].
    apply bind_Ok in H. destruct H as [rest [Hr H]]. inversion H; subst.
    rewrite Hb. simpl. destruct b; [reflexivity | apply IH; exact Hr].
Qed.

Lemma filterM_of_no_first_match (query : dict) (data : list dict) :
  first_match query data = Ok None ->
  filterM (fun doc => _match doc query) data = Ok [].
Proof.
  induction data as [|d data IH]; intros H; simpl in *; [reflexivity|].
  apply bind_Ok in H. destruct H as [b [Hb H]]. rewrite Hb. simpl.
  destruct b; [discriminate|]. rewrite (IH H). reflexivity.
Qed.

(** X4.  [find_one] is the head of [find]: when [find] returns, [find_one]
    returns its first result, or [None] when there is none; and when
    [find_one] returns [None], [find] returns the empty list. *)
Theorem find_one_is_head_of_find (query : dict) (c : collection) :
  (forall r, find query c = Ok r -> find_one query c = Ok (hd_error r))
  /\ (find_one query c = Ok None -> find query c = Ok []).
Proof.
  unfold find, find_one. split.
  - intros r H. apply bind_Ok in H. destruct H as [data [Hc H]]. rewrite Hc. simpl.
    apply first_match_of_filterM. exact H.
  - intros H. apply bind_Ok in H. destruct H as [data [Hc H]]. rewrite Hc. simpl.
    apply filterM_of_no_first_match. exact H.
Qed.

(** ** More on [delete] *)

Lemma filterM_negated (query : dict) (docs : list dict) :
  forall kept,
    filterM (fun doc => b <- _match doc query ;; Ok (negb b)) docs = Ok kept ->
    (forall d, In d docs -> exists b, _match d query = Ok b) /\
    kept = filter (fun d => match _match d query with
                            | Ok false => true
                            | _ => false
                            end) docs /\
    Forall (fun d => _match d query = Ok false) kept.
Proof.
  induction docs as [|d docs IH]; intros kept H; simpl in *.
  - inversion H; subst. split; [intros ? []|]. split; [reflexivity | constructor].
  - apply bind_Ok in H. destruct H as [nb [Hb H]].
    apply bind_Ok in Hb. destruct Hb as [b [Hb Hnb]]. inversion Hnb; subst.
    apply bind_Ok in H. destruct H as [rest [Hr H]]. inversion H; subst.
    destruct (IH rest Hr) as [H1 [H2 H3]]. rewrite Hb. split; [|split].
    + intros e [He|He]; [subst; eauto | apply H1; exact He].
    + destruct b; simpl; rewrite <- H2; reflexivity.
    + destruct b; simpl; [exact H3 | constructor; assumption].
Qed.

Lemma delete_keeps_unmatched_of (query : dict) (c c' : collection) :
  delete query c = Ok c' ->
  incl (documents c') (documents c) /\
  Forall (fun d => _match d query = Ok false) (documents c').
Proof.
  unfold delete. intros H. apply bind_Ok in H. destruct H as [kept [Hk H]].
  apply bind_Ok in H. destruct H as [ixs [_ H]]. inversion H; subst. simpl.
  split; [eapply filterM_incl; exact Hk | apply (filterM_negated query _ _ Hk)].
Qed.

(** X5.  A [delete] that returns has evaluated the query on every
    document without an exception, keeps exactly the documents on which
    the query is false, in their order, and changes none of them. *)
Theorem delete_keeps_exactly_the_unmatched (query : dict) (c c' : collection) :
  delete query c = Ok c' ->
  (forall d, In d (documents c) -> exists b, _match d query = Ok b) /\
  documents c' = filter (fun d => match _match d query with
                                  | Ok false => true
                                  | _ => false
                                  end) (documents c) /\
  Forall (fun d => _match d query = Ok false) (documents c').
Proof.
  unfold delete. intros H. apply bind_Ok in H. destruct H as [kept [Hk H]].
  apply bind_Ok in H. destruct H as [ixs [_ H]]. inversion H; subst. simpl.
  apply filterM_negated. exact Hk.
Qed.

(** X6.  [delete] is idempotent: the same [delete] on the state it
    returned returns that state again. *)
Theorem delete_twice (query : dict) (c c' : collection) :
  delete query c = Ok c' -> delete query c' = Ok c'.
Proof.
  unfold delete. intros H. apply bind_Ok in H. destruct H as [kept [Hk H]].
  apply bind_Ok in H. destruct H as [ixs [Hi H]]. inversion H; subst. simpl.
  destruct (filterM_negated query _ _ Hk) as [_ [_ Hf]].
  rewrite (delete_keeps_unmatched query kept Hf). simpl.
  unfold _rebuild_indexes in *.
  rewrite (clear_indexes_keys ixs (indexes c)), Hi; [reflexivity|].
  rewrite (update_indexes_all_keys _ _ _ Hi). apply clear_indexes_fst.
Qed.

Lemma has_hashable_id_key (d : dict) : has_hashable_id d -> has_key "_id" d = true.
Proof. intros [id [H _]]. unfold has_key. rewrite H. reflexivity. Qed.

Lemma clear_indexes_hashable (ixs : index_map) : index_ids_hashable (clear_indexes ixs) = true.
Proof. unfold clear_indexes. induction ixs as [|e ixs IH]; simpl; [reflexivity | exact IH]. Qed.

Lemma update_indexes_all_hashable (docs : list dict) :
  forall ixs ixs',
    Forall has_hashable_id docs -> index_ids_hashable ixs = true ->
    update_indexes_all docs ixs = Ok ixs' -> index_ids_hashable ixs' = true.
Proof.
  induction docs as [|d docs IH]; intros ixs ixs' Hd Hh H; simpl in H.
  - inversion H; subst. exact Hh.
  - inversion Hd as [|? ? [id [Hid Hhid]] Hds]; subst.
    apply bind_Ok in H. destruct H as [ixs1 [H1 H]].
    apply (IH ixs1 ixs' Hds); [|exact H].
    exact (_update_indexes_hashable d id ixs Hid Hhid ixs1 Hh H1).
Qed.

Lemma query_loop_returns (ixs : index_map) (query : dict) :
  index_ids_hashable ixs = true ->
  forall m, exists r, query_loop ixs query m = Ok r.
Proof.
  intros Hh. induction query as [|clause query IH]; intros m; [simpl; eauto|].
  destruct (clause_indexed ixs clause) eqn:E.
  - destruct (query_loop_indexed ixs clause query m Hh E) as [_ Hq]. rewrite Hq. apply IH.
  - rewrite (query_loop_unindexed ixs clause query m E). eauto.
Qed.

Lemma candidates_returns (query : dict) (c : collection) :
  index_ids_hashable (indexes c) = true ->
  Forall (fun d => has_key "_id" d = true) (documents c) ->
  exists g, candidates query c = Ok (filter g (documents c)).
Proof.
  intros Hh Hid. unfold candidates, _query_using_indexes.
  destruct (query_loop_returns (indexes c) query Hh None) as [[ids|] E]; rewrite E; simpl.
  - rewrite (filter_by_ids ids _ Hid). eauto.
  - exists (fun _ => true). rewrite filter_all. reflexivity.
Qed.


(** ** More on [update] *)

Lemma dict_get_not_in {V} (k : string) (d : list (string * V)) :
  ~ In k (map fst d) -> dict_get k d = None.
Proof.
  induction d as [|[k' v'] d IH]; simpl; intros H; [reflexivity|].
  destruct (String.eqb k k') eqn:E.
  - apply String.eqb_eq in E. subst. exfalso. apply H. left. reflexivity.
  - apply IH. intros Hin. apply H. right. exact Hin.
Qed.

Lemma dict_get_in_nodup {V} (k : string) (v : V) (d : list (string * V)) :
  NoDup (map fst d) -> In (k, v) d -> dict_get k d = Some v.
Proof.
  induction d as [|[k' v'] d IH]; simpl; intros Hnd Hin; [contradiction|].
  inversion Hnd as [|? ? Hnot Hnd']; subst. destruct Hin as [Heq|Hin].
  - inversion Heq; subst. rewrite String.eqb_refl. reflexivity.
  - destruct (String.eqb k k') eqn:E; [|apply IH; assumption].
    apply String.eqb_eq in E. subst. exfalso. apply Hnot.
    apply (in_map fst d (k', v) Hin).
Qed.

(** [d.update(other)] field by field: the patch wins, the other fields
    stay. *)
Lemma dict_update_get (k : string) (updates : dict) :
  NoDup (map fst updates) ->
  forall d, dict_get k (dict_update d updates) =
            match dict_get k updates with
            | Some v => Some v
            | None => dict_get k d
            end.
Proof.
  unfold dict_update. induction updates as [|[k' v'] updates IH]; intros Hnd d; simpl;
    [reflexivity|].
  inversion Hnd as [|? ? Hnot Hnd']; subst. rewrite (IH Hnd').
  destruct (String.eqb k k') eqn:E.
  - apply String.eqb_eq in E. subst k'.
    rewrite (dict_get_not_in k updates Hnot). apply dict_get_set_same.
  - destruct (dict_get k updates); [reflexivity | apply dict_get_set_other; exact E].
Qed.

Lemma update_loop_shape (query updates : dict) (data : list dict) :
  forall ixs r, update_loop query updates data ixs = Ok r ->
    Forall2 (fun d d' =>
               (_match d query = Ok true /\ d' = dict_update d updates) \/
               (_match d query = Ok false /\ d' = d)) data (fst r).
Proof.
  induction data as [|doc data IH]; intros ixs r H; simpl in *.
  - inversion H; subst. constructor.
  - apply bind_Ok in H. destruct H as [b [Hb H]]. destruct b.
    + apply bind_Ok in H. destruct H as [ixs' [_ H]].
      apply bind_Ok in H. destruct H as [r' [Hr H]]. inversion H; subst. simpl.
      constructor; [left; auto | apply (IH _ _ Hr)].
    + apply bind_Ok in H. destruct H as [r' [Hr H]]. inversion H; subst. simpl.
      constructor; [right; auto | apply (IH _ _ Hr)].
Qed.

(** X8.  [update] rewrites the document set in place: it keeps the number
    and the order of the documents, leaves a document the query does not
    match as it is, and gives a matched document the patch's value for
    every field of the patch and its own value for every other field. *)
Theorem update_merges_patch_into_matches (query updates : dict) (c c' : collection) :
  NoDup (map fst updates) ->
  update query updates c = Ok c' ->
  Forall2 (fun d d' =>
             (_match d query = Ok true /\
              forall k, dict_get k d' = match dict_get k updates with
                                        | Some v => Some v
                                        | None => dict_get k d
                                        end) \/
             (_match d query = Ok false /\ d' = d))
    (documents c) (documents c').
Proof.
  intros Hnd H. unfold update in H. apply bind_Ok in H. destruct H as [r [Hr H]].
  inversion H; subst. simpl.
  eapply Forall2_impl; [|apply (update_loop_shape _ _ _ _ _ Hr)].
  intros d d' [[Hm ->]|[Hm ->]]; [left | right]; split; auto.
  intros k. apply dict_update_get. exact Hnd.
Qed.

Lemma update_loop_no_match (query updates : dict) (data : list dict) (ixs : index_map) :
  Forall (fun d => _match d query = Ok false) data ->
  update_loop query updates data ixs = Ok (data, ixs).
Proof.
  induction data as [|d data IH]; intros H; simpl; [reflexivity|].
  inversion H as [|? ? Hd Hds]; subst. rewrite Hd. simpl. rewrite (IH Hds). reflexivity.
Qed.

(** X9.  An [update] whose query matches no document changes neither the
    documents nor the indexes, stale entries included; it only writes
    the index file. *)
Theorem update_without_match (query updates : dict) (c : collection) :
  Forall (fun d => _match d query = Ok false) (documents c) ->
  update query updates c =
  Ok {| documents := documents c; indexes := indexes c; index_file := Some (indexes c) |}.
Proof.
  intros H. unfold update. rewrite (update_loop_no_match query updates _ (indexes c) H).
  reflexivity.
Qed.

Lemma split_dot_no_dot (k : string) : has_char "." k = false -> split_dot k = [k].
Proof.
  induction k as [|c k IH]; simpl; intros H; [reflexivity|].
  apply orb_false_iff in H. destruct H as [H1 H2]. rewrite H1, (IH H2). reflexivity.
Qed.

Lemma match_holds_fieldwise (d query : dict) :
  (forall k v, In (k, v) query ->
     has_char "." k = false /\ hashable v = true /\ dict_get k d = Some v) ->
  _match d query = Ok true.
Proof.
  induction query as [|[k v] query IH]; intros H; simpl; [reflexivity|].
  destruct (H k v (or_introl eq_refl)) as [Hk [Hv Hg]].
  rewrite (split_dot_no_dot k Hk). simpl. rewrite Hg.
  rewrite (py_eq_refl_hashable v Hv).
  destruct v; try discriminate; apply IH; intros k' v' Hin; apply H; right; exact Hin.
Qed.

(** X10.  When the fields of the patch have no dot in their names and
    hashable values, every document an [update] has patched matches the
    patch taken as a query. *)
Theorem patched_documents_match_the_patch (query updates : dict) (c c' : collection) :
  NoDup (map fst updates) ->
  Forall (fun kv => has_char "." (fst kv) = false /\ hashable (snd kv) = true) updates ->
  update query updates c = Ok c' ->
  Forall2 (fun d d' => _match d query = Ok true -> _match d' updates = Ok true)
    (documents c) (documents c').
Proof.
  intros Hnd Hu H. unfold update in H. apply bind_Ok in H. destruct H as [r [Hr H]].
  inversion H; subst. simpl.
  eapply Forall2_impl; [|apply (update_loop_shape _ _ _ _ _ Hr)].
  intros d d' [[Hm ->]|[Hm ->]] Hm'; [|congruence].
  apply match_holds_fieldwise. intros k v Hin. rewrite Forall_forall in Hu.
  destruct (Hu (k, v) Hin) as [H1 H2]. split; [exact H1|]. split; [exact H2|].
  rewrite (dict_update_get k updates Hnd), (dict_get_in_nodup k v updates Hnd Hin). reflexivity.
Qed.

(** ** Registered fields and files *)

Lemma dict_set_keys {V} (k : string) (v : V) (d : list (string * V)) :
  map fst (dict_set k v d) = if has_key k d then map fst d else (map fst d ++ [k])%list.
Proof.
  unfold has_key. induction d as [|[k' v'] d IH]; simpl; [reflexivity|].
  destruct (String.eqb k k'); simpl; [reflexivity|]. rewrite IH.
  destruct (dict_get k d); reflexivity.
Qed.

Lemma update_loop_keys (query updates : dict) (data : list dict) :
  forall ixs r, update_loop query updates data ixs = Ok r -> map fst (snd r) = map fst ixs.
Proof.
  induction data as [|doc data IH]; intros ixs r H; simpl in *.
  - inversion H; subst. reflexivity.
  - apply bind_Ok in H. destruct H as [b [_ H]]. destruct b.
    + apply bind_Ok in H. destruct H as [ixs' [Hu H]].
      apply bind_Ok in H. destruct H as [r' [Hr H]]. inversion H; subst. simpl.
      rewrite (IH _ _ Hr). apply (_update_indexes_keys _ _ _ Hu).
    + apply bind_Ok in H. destruct H as [r' [Hr H]]. inversion H; subst. simpl.
      apply (IH _ _ Hr).
Qed.

(** X11.  Only [create_index] registers a field, and nothing unregisters
    one: [insert_one], [update] and [delete] leave the registered fields
    and their order as they are, and [create_index] keeps them and puts
    a field that was not registered at the end. *)
Theorem registered_fields (c c' : collection) :
  (forall uuid d, insert_one uuid d c = Ok c' ->
     map fst (indexes c') = map fst (indexes c))
  /\ (forall query updates, update query updates c = Ok c' ->
        map fst (indexes c') = map fst (indexes c))
  /\ (forall query, delete query c = Ok c' ->
        map fst (indexes c') = map fst (indexes c))
  /\ (forall field, create_index field c = Ok c' ->
        map fst (indexes c') =
        if has_key field (indexes c) then map fst (indexes c)
        else (map fst (indexes c) ++ [field])%list).
Proof.
  split; [|split; [|split]].
  - intros uuid d H. destruct (insert_one_total uuid d c) as [ixs [E1 E]].
    rewrite E in H. inversion H; subst. simpl. apply (_update_indexes_keys _ _ _ E1).
  - intros query updates H. unfold update in H.
    apply bind_Ok in H. destruct H as [r [Hr H]]. inversion H; subst. simpl.
    apply (update_loop_keys _ _ _ _ _ Hr).
  - intros query H. unfold delete in H.
    apply bind_Ok in H. destruct H as [kept [_ H]].
    apply bind_Ok in H. destruct H as [ixs [Hi H]]. inversion H; subst. simpl.
    rewrite (update_indexes_all_keys _ _ _ Hi). apply clear_indexes_fst.
  - intros field H. unfold create_index in H.
    apply bind_Ok in H. destruct H as [ixs [Hi H]]. inversion H; subst. simpl.
    rewrite (update_indexes_all_keys _ _ _ Hi). apply dict_set_keys.
Qed.


(** ** [create_index] twice *)

Lemma Forall2_same {A} (P : A -> A -> Prop) (l : list A) :
  (forall x, In x l -> P x x) -> Forall2 P l l.
Proof.
  induction l as [|x l IH]; intros H; constructor;
    [apply H; left; reflexivity | apply IH; intros y Hy; apply H; right; exact Hy].
Qed.

Lemma Forall2_in_right {A B} (P : A -> B -> Prop) (l : list A) (l' : list B) (y : B) :
  Forall2 P l l' -> In y l' -> exists x, In x l /\ P x y.
Proof.
  intros F. induction F as [|a b l l' H _ IH]; intros Hin; [contradiction|].
  destruct Hin as [->|Hin]; [exists a; split; [left; reflexivity | exact H]|].
  destruct (IH Hin) as [x [Hx Hp]]. exists x. split; [right; exact Hx | exact Hp].
Qed.

Lemma _update_indexes_entries (d : dict) (ixs : index_map) :
  forall ixs', _update_indexes d ixs = Ok ixs' ->
    Forall2 (fun e e' => fst e = fst e' /\ update_index d (fst e) (snd e) = Ok (snd e'))
      ixs ixs'.
Proof.
  induction ixs as [|[key ix] ixs IH]; intros ixs' H; simpl in *.
  - inversion H; subst. constructor.
  - apply bind_Ok in H. destruct H as [ix1 [H1 H]].
    apply bind_Ok in H. destruct H as [rest [H2 H]]. inversion H; subst.
    constructor; [split; [reflexivity | exact H1] | apply IH; exact H2].
Qed.

(** A pass of [_update_indexes] over the documents works on each index
    by itself. *)
Lemma update_indexes_all_entries (docs : list dict) :
  forall ixs ixs', update_indexes_all docs ixs = Ok ixs' ->
    Forall2 (fun e e' => fst e = fst e' /\ index_fold docs (fst e) (snd e) = Ok (snd e'))
      ixs ixs'.
Proof.
  induction docs as [|d docs IH]; intros ixs ixs' H; simpl in H.
  - inversion H; subst. apply Forall2_same. intros x _. split; reflexivity.
  - apply bind_Ok in H. destruct H as [ixs1 [H1 H]].
    pose proof (_update_indexes_entries d ixs ixs1 H1) as F1.
    pose proof (IH ixs1 ixs' H) as F2. clear H H1 IH.
    revert ixs' F2. induction F1 as [|e e1 l l1 [Hk Hu] _ IHF]; intros ixs' F2.
    + inversion F2; subst. constructor.
    + inversion F2 as [|? e2 ? l2 [Hk2 Hf] F2']; subst.
      constructor; [|apply IHF; exact F2'].
      split; [congruence|]. simpl. rewrite Hu. simpl. rewrite Hk. exact Hf.
Qed.

Lemma update_index_recorded (d : dict) (key : string) (ix : index) (id : value) :
  dict_get "_id" d = Some id ->
  (_get_nested_value d key <> VNull ->
   has_key (py_str (_get_nested_value d key)) ix = true /\
   py_in id (bucket (py_str (_get_nested_value d key)) ix) = true) ->
  update_index d key ix = Ok ix.
Proof.
  intros Hid H. destruct (_get_nested_value d key) eqn:Ev;
    [unfold update_index; rewrite Ev; reflexivity | ..].
  all: rewrite update_index_nonnull by (rewrite Ev; discriminate).
  all: destruct H as [H1 H2]; [discriminate|].
  all: unfold getitem; rewrite Hid; simpl; rewrite Ev in *; rewrite H1, H2; reflexivity.
Qed.

Lemma index_fold_mono (docs : list dict) (key s : string) (x : value) :
  forall ix ix', index_fold docs key ix = Ok ix' ->
    has_key s ix = true -> py_in x (bucket s ix) = true ->
    has_key s ix' = true /\ py_in x (bucket s ix') = true.
Proof.
  induction docs as [|d docs IH]; intros ix ix' H Hk Hx; simpl in H.
  - inversion H; subst. auto.
  - apply bind_Ok in H. destruct H as [ix1 [H1 H]].
    destruct (update_index_mono d key s ix ix1 x H1 Hk Hx) as [Hk1 Hx1].
    apply (IH ix1 ix' H Hk1 Hx1).
Qed.

Lemma index_fold_records (docs : list dict) (key : string) :
  Forall has_hashable_id docs ->
  forall ix ix', index_fold docs key ix = Ok ix' ->
    forall d, In d docs -> update_index d key ix' = Ok ix'.
Proof.
  induction docs as [|d0 docs IH]; intros Hd ix ix' H d Hin; [contradiction|].
  inversion Hd as [|? ? [id [Hid Hh]] Hds]; subst. simpl in H.
  apply bind_Ok in H. destruct H as [ix1 [H1 H]].
  destruct Hin as [->|Hin]; [|apply (IH Hds ix1 ix' H d Hin)].
  apply (update_index_recorded d key ix' id Hid). intros Hv.
  destruct (update_index_adds d key ix ix1 id H1 Hv Hid Hh) as [Hk Hx].
  apply (index_fold_mono docs key _ id ix1 ix' H Hk Hx).
Qed.

Lemma index_fold_fixed (docs : list dict) (key : string) (ix : index) :
  (forall d, In d docs -> update_index d key ix = Ok ix) -> index_fold docs key ix = Ok ix.
Proof.
  induction docs as [|d docs IH]; intros H; simpl; [reflexivity|].
  rewrite (H d (or_introl eq_refl)). simpl. apply IH. intros e He. apply H. right. exact He.
Qed.

Lemma index_fold_total (docs : list dict) (key : string) :
  Forall has_hashable_id docs -> forall ix, exists ix', index_fold docs key ix = Ok ix'.
Proof.
  induction docs as [|d docs IH]; intros Hd ix; simpl; [eauto|].
  inversion Hd as [|? ? Hd0 Hds]; subst.
  destruct (update_index_total d key ix (has_hashable_id_key d Hd0)) as [ix1 E].
  rewrite E. simpl. apply IH. exact Hds.
Qed.

Lemma recreate_entries (docs : list dict) (field : string) :
  forall ixs0 ixs1,
    Forall2 (fun e e' => fst e = fst e' /\ index_fold docs (fst e) (snd e) = Ok (snd e'))
      (dict_set field [] ixs0) ixs1 ->
    (forall e, In e ixs1 -> index_fold docs (fst e) (snd e) = Ok (snd e)) ->
    Forall2 (fun e e' => fst e = fst e' /\ index_fold docs (fst e) (snd e) = Ok (snd e'))
      (dict_set field [] ixs1) ixs1.
Proof.
  induction ixs0 as [|[k0 v0] ixs0 IH]; intros ixs1 F Hfix; simpl in F.
  - inversion F as [|? [k1 v1] ? l1 [Hk Hf] F']; subst. inversion F'; subst.
    simpl in *. subst k1. rewrite String.eqb_refl. constructor; [auto | constructor].
  - destruct (String.eqb field k0) eqn:E.
    + inversion F as [|? [k1 v1] ? l1 [Hk Hf] F']; subst. simpl in *. subst k1.
      rewrite E. constructor; [auto|].
      apply Forall2_same. intros e He. split; [reflexivity | apply Hfix; right; exact He].
    + inversion F as [|? [k1 v1] ? l1 [Hk Hf] F']; subst. simpl in *. subst k1.
      rewrite E. constructor.
      * split; [reflexivity | apply (Hfix (k0, v1)); left; reflexivity].
      * apply (IH l1 F'). intros e He. apply Hfix. right. exact He.
Qed.

Lemma entries_functional (docs : list dict) (a b b' : index_map) :
  Forall2 (fun e e' => fst e = fst e' /\ index_fold docs (fst e) (snd e) = Ok (snd e')) a b ->
  Forall2 (fun e e' => fst e = fst e' /\ index_fold docs (fst e) (snd e) = Ok (snd e')) a b' ->
  b = b'.
Proof.
  intros F. revert b'. induction F as [|e [k1 v1] l l1 [Hk Hf] _ IH]; intros b' F'.
  - inversion F'; subst. reflexivity.
  - inversion F' as [|? [k2 v2] ? l2 [Hk2 Hf2] F'']; subst. simpl in *.
    rewrite (IH l2 F''). f_equal. f_equal; congruence.
Qed.

(** X13.  [create_index] is idempotent: on documents that all carry a
    hashable [_id] it returns, and re-creating the index just created on
    the state it returned gives that state again, all other indexes
    included. *)
Theorem create_index_twice (field : string) (c : collection) :
  Forall has_hashable_id (documents c) ->
  exists c1, create_index field c = Ok c1 /\ create_index field c1 = Ok c1.
Proof.
  intros Hd.
  assert (Hk : Forall (fun d => has_key "_id" d = true) (documents c)).
  { rewrite Forall_forall in *. intros d Hin. apply has_hashable_id_key. apply Hd. exact Hin. }
  destruct (update_indexes_all_total (documents c) (dict_set field [] (indexes c)) Hk)
    as [ixs1 E1].
  destruct (update_indexes_all_total (documents c) (dict_set field [] ixs1) Hk) as [ixs2 E2].
  pose proof (update_indexes_all_entries _ _ _ E1) as F1.
  pose proof (update_indexes_all_entries _ _ _ E2) as F2.
  assert (Hfix : forall e, In e ixs1 ->
                   index_fold (documents c) (fst e) (snd e) = Ok (snd e)).
  { intros e He. apply index_fold_fixed.
    apply (Forall2_in_right _ _ _ _ F1) in He. destruct He as [e0 [_ [Hk0 Hf]]].
    rewrite <- Hk0. apply (index_fold_records _ _ Hd _ _ Hf). }
  pose proof (recreate_entries _ _ _ _ F1 Hfix) as F3.
  pose proof (entries_functional _ _ _ _ F2 F3) as ->.
  eexists. unfold create_index. rewrite E1. split; [reflexivity|]. simpl. rewrite E2.
  reflexivity.
Qed.

(** ** The two resolvers *)

Lemma walks_agree (keys : list string) :
  forall val,
    match match_walk val keys with
    | Some v => nested_walk val keys = v \/ (v = VNull /\ nested_walk val keys = VDict [])
    | None => nested_walk val keys = VDict []
    end.
Proof.
  induction keys as [|k keys IH]; intros val; simpl; [left; reflexivity|].
  destruct val; try apply nested_walk_empty.
  destruct (dict_get k d) as [x|]; [apply IH|].
  rewrite nested_walk_empty. destruct keys; simpl; [right; auto | reflexivity].
Qed.

(** X14.  [_get_nested_value] in terms of the path walk of [_match]: it
    is null where [_match] stops on a value that is not a mapping, null
    where [_match] resolves to null or to the empty mapping, and the
    value [_match] resolves to everywhere else. *)
Theorem resolvers_agree (doc : dict) (key : string) :
  _get_nested_value doc key =
  match match_walk (VDict doc) (split_dot key) with
  | Some v => if py_eq v (VDict []) then VNull else v
  | None => VNull
  end.
Proof.
  unfold _get_nested_value. pose proof (walks_agree (split_dot key) (VDict doc)) as H.
  destruct (match_walk (VDict doc) (split_dot key)) as [v|].
  - destruct H as [->|[-> ->]]; reflexivity.
  - rewrite H. reflexivity.
Qed.

(** ** Clauses of a query *)

Lemma match_plain_forallb (d query : dict) :
  Forall (fun cl => is_dict (snd cl) = false) query ->
  _match d query = Ok (forallb (clause_holds d) query).
Proof.
  induction query as [|[k v] query IH]; intros H; simpl; [reflexivity|].
  inversion H as [|? ? Hv Hq]; subst. simpl in Hv. unfold clause_holds at 1. simpl.
  destruct (match_walk (VDict d) (split_dot k)) as [val|]; [|reflexivity].
  destruct v; try discriminate; (destruct (py_eq val _); [apply IH; exact Hq | reflexivity]).
Qed.

Lemma forallb_permutation {A} (f : A -> bool) (l l' : list A) :
  Permutation l l' -> forallb f l = forallb f l'.
Proof.
  intros P. induction P; simpl; try congruence.
  destruct (f x), (f y); reflexivity.
Qed.

(** X15.  For a query of plain values the order of the clauses does not
    matter: [_match] gives the same answer on every reordering.  With an
    operator clause it can matter, between [False] and an exception. *)
Theorem plain_clauses_commute :
  (forall d query query',
     Forall (fun cl => is_dict (snd cl) = false) query ->
     Permutation query query' ->
     _match d query = _match d query')
  /\ _match [("a", VInt 2); ("b", VStr "x")]
       [("a", VInt 1); ("b", VDict [("$gt", VInt 1)])] = Ok false
  /\ _match [("a", VInt 2); ("b", VStr "x")]
       [("b", VDict [("$gt", VInt 1)]); ("a", VInt 1)] = Raise TypeError.
Proof.
  split; [|split; reflexivity].
  intros d query query' Hp P.
  rewrite (match_plain_forallb d query Hp).
  rewrite (match_plain_forallb d query' (Permutation_Forall P Hp)).
  rewrite (forallb_permutation _ _ _ P). reflexivity.
Qed.

(** X16.  On a path that resolves, [$ne] is the negation of plain
    equality; on a path that crosses a value that is not a mapping both
    the equality and [$ne] fail. *)
Theorem ne_negates_equality (d : dict) (k : string) (v : value) :
  is_dict v = false ->
  match match_walk (VDict d) (split_dot k) with
  | Some val =>
      _match d [(k, v)] = Ok (py_eq val v) /\
      _match d [(k, VDict [("$ne", v)])] = Ok (negb (py_eq val v))
  | None =>
      _match d [(k, v)] = Ok false /\
      _match d [(k, VDict [("$ne", v)])] = Ok false
  end.
Proof.
  intros Hv. simpl. destruct (match_walk (VDict d) (split_dot k)) as [val|]; [|auto].
  split.
  - destruct v; try discriminate; destruct (py_eq val _); reflexivity.
  - destruct (py_eq val v); reflexivity.
Qed.

Lemma match_op_unknown (op : string) (val c : value) :
  known_op op = false -> match_op op val c = Ok true.
Proof.
  unfold known_op, match_op. intros H.
  repeat (apply orb_false_iff in H; destruct H as [H ?]).
  repeat match goal with E : String.eqb _ _ = false |- _ => rewrite E; clear E end.
  reflexivity.
Qed.

(** X17.  Operators [_match] does not know are skipped: a clause whose
    operator document holds only unknown operators, or none, is
    satisfied by every document on which the path resolves, the field
    being present or not, and fails without error where the path
    crosses a value that is not a mapping. *)
Theorem unknown_operators_are_skipped (d rest ops : dict) (k : string) :
  Forall (fun oc => known_op (fst oc) = false) ops ->
  _match d ((k, VDict ops) :: rest) =
  match match_walk (VDict d) (split_dot k) with
  | Some _ => _match d rest
  | None => Ok false
  end.
Proof.
  intros H. simpl. destruct (match_walk (VDict d) (split_dot k)) as [val|]; [|reflexivity].
  assert (E : match_ops ops val = Ok true).
  { induction H as [|[op c] ops Hop _ IH]; simpl; [reflexivity|].
    rewrite (match_op_unknown op val c Hop). simpl. exact IH. }
  rewrite E. reflexivity.
Qed.

(** ** Bounds of the aggregates *)



(** ** Sizes of the groups *)

Lemma group_add_total (key : value) (d : dict) (g : list (value * list dict)) :
  group_total (group_add key d g) = S (group_total g).
Proof.
  induction g as [|[k ds] g IH]; simpl; [reflexivity|].
  destruct (py_eq key k); simpl; [rewrite length_app; simpl; lia | rewrite IH; lia].
Qed.

Lemma group_loop_total (field : string) (data : list dict) :
  forall g g', group_loop field data g = Ok g' ->
               group_total g' = (group_total g + List.length data)%nat.
Proof.
  induction data as [|d data IH]; intros g g' H; simpl in *.
  - inversion H; subst. lia.
  - destruct (hashable (_get_nested_value d field)); [|discriminate].
    rewrite (IH _ _ H), group_add_total. lia.
Qed.

(** X19.  When [group_by] returns, the sizes of its groups add up to the
    number of documents: every document is in the result once. *)
Theorem group_sizes_add_up (field : string) (c : collection) (g : list (value * list dict)) :
  group_by field c = Ok g -> group_total g = List.length (documents c).
Proof.
  unfold group_by. intros H. rewrite (group_loop_total field _ _ _ H). reflexivity.
Qed.

(** ** File names *)

Lemma split_last_dot_json (stem : string) :
  split_last_dot (stem ++ ".json") = Some (stem, ".json").
Proof.
  induction stem as [|c stem IH]; [reflexivity|]. simpl. simpl in IH. rewrite IH. reflexivity.
Qed.

Lemma append_assoc (a b c : string) : ((a ++ b) ++ c)%string = (a ++ (b ++ c))%string.
Proof. induction a as [|x a IH]; simpl; [reflexivity | rewrite IH; reflexivity]. Qed.

(** X20.  For a collection name that is one non-empty path component,
    the index file is named after the collection with [.index.json] in
    place of [.json]; this is the document file of the collection whose
    name is the first name followed by [.index], so that the two
    collections share a file. *)
Theorem index_file_of_collection (name : string) :
  name <> "" -> has_char "/" name = false ->
  index_file_name (doc_file_name name) = Some (name ++ ".index.json")
  /\ index_file_name (doc_file_name name) = Some (doc_file_name (name ++ ".index")).
Proof.
  intros Hne _.
  assert (E : index_file_name (doc_file_name name) = Some (name ++ ".index.json")).
  { unfold index_file_name, doc_file_name, with_suffix.
    rewrite split_last_dot_json.
    destruct name as [|ch name]; [contradiction|]. reflexivity. }
  split; [exact E|]. rewrite E. unfold doc_file_name. rewrite append_assoc. reflexivity.
Qed.

(** ** What [find] returns *)

Lemma filterM_sound {A} (p : A -> result bool) (xs : list A) :
  forall r, filterM p xs = Ok r -> forall x, In x r -> In x xs /\ p x = Ok true.
Proof.
  induction xs as [|a xs IH]; intros r H x Hx; simpl in *.
  - inversion H; subst. contradiction.
  - apply bind_Ok in H. destruct H as [b [Hb H]].
    apply bind_Ok in H. destruct H as [rest [Hr H]]. inversion H; subst.
    destruct b.
    + destruct Hx as [->|Hx]; [auto|]. destruct (IH rest Hr x Hx). auto.
    + destruct (IH rest Hr x Hx). auto.
Qed.

Lemma filterM_complete {A} (p : A -> result bool) (xs : list A) :
  (forall x, In x xs -> exists b, p x = Ok b) ->
  exists r, filterM p xs = Ok r /\ forall x, In x xs -> p x = Ok true -> In x r.
Proof.
  induction xs as [|a xs IH]; intros H; simpl; [exists []; split; [reflexivity | intros ? []]|].
  destruct (H a (or_introl eq_refl)) as [b Hb].
  destruct (IH (fun x Hx => H x (or_intror Hx))) as [rest [Hr Hin]].
  rewrite Hb, Hr. simpl. eexists. split; [reflexivity|].
  intros x [->|Hx] Hp.
  - rewrite Hb in Hp. inversion Hp; subst. left. reflexivity.
  - specialize (Hin x Hx Hp). destruct b; [right|]; exact Hin.
Qed.

(** X21.  [find] is sound whatever the indexes hold: every document it
    returns is a stored document on which the query evaluates to true,
    so stale or foreign index entries never put a wrong document in a
    result. *)
Theorem find_returns_only_matches (query : dict) (c : collection) (r : list dict) :
  find query c = Ok r ->
  forall d, In d r -> In d (documents c) /\ _match d query = Ok true.
Proof.
  unfold find. intros H d Hd. apply bind_Ok in H. destruct H as [data [Hc H]].
  destruct (candidates_filter query c data Hc) as [g ->].
  destruct (filterM_sound _ _ _ H d Hd) as [Hin Hm].
  apply filter_In in Hin. destruct Hin as [Hin _]. auto.
Qed.

(** X22.  Insert, then query by a field: on a state with complete
    indexes and hashable ids, a document without [_id] that holds a
    string at a field whose name has no dot is among the results of
    [find] for that field and string right after its insertion,
    whether the field is indexed or not. *)
Theorem insert_then_find_by_field (uuid k s : string) (d : dict) (c : collection) :
  has_key "_id" d = false ->
  has_char "." k = false ->
  dict_get k d = Some (VStr s) ->
  Forall has_hashable_id (documents c) ->
  index_ids_hashable (indexes c) = true ->
  index_complete (documents c) (indexes c) ->
  exists c' r,
    insert_one uuid d c = Ok c' /\
    find [(k, VStr s)] c' = Ok r /\
    In (d ++ [("_id", VStr uuid)])%list r.
Proof.
  intros Hd Hk Hg Hids Hh Hc.
  destruct (insert_one_total uuid d c) as [ixs [E1 E]].
  assert (Es : stored uuid d = (d ++ [("_id", VStr uuid)])%list)
    by (unfold stored; rewrite Hd; reflexivity).
  rewrite Es in *. set (d' := (d ++ [("_id", VStr uuid)])%list) in *.
  assert (Hid : dict_get "_id" d' = Some (VStr uuid)).
  { unfold d'. rewrite <- (dict_set_absent "_id" (VStr uuid) d Hd). apply dict_get_set_same. }
  assert (Hg' : dict_get k d' = Some (VStr s)).
  { unfold d'. clear - Hg. induction d as [|[k0 v0] d IH]; simpl in *; [discriminate|].
    destruct (String.eqb k k0); [exact Hg | apply IH; exact Hg]. }
  match type of E with _ = Ok ?c0 => set (c1 := c0) in * end.
  assert (Hall : Forall has_hashable_id (documents c1)).
  { simpl. apply Forall_app. split; [exact Hids|]. constructor; [|constructor].
    exists (VStr uuid). auto. }
  assert (Hfind : find [(k, VStr s)] c1 =
                  filterM (fun e => _match e [(k, VStr s)]) (documents c1)).
  { apply find_scan_text.
    - constructor; [eexists; reflexivity | constructor].
    - exact Hall.
    - exact (_update_indexes_hashable d' (VStr uuid) (indexes c) Hid eq_refl ixs Hh E1).
    - apply (index_complete_incl (d' :: documents c)).
      + intros e He. apply in_app_or in He. destruct He as [He|[He|[]]];
          [right; exact He | left; exact He].
      + apply (_update_indexes_complete _ _ _ _ E1 Hc). }
  destruct (filterM_complete (fun e => _match e [(k, VStr s)]) (documents c1))
    as [r [Hr Hin]].
  { intros e _. apply match_plain_total. constructor; [reflexivity | constructor]. }
  exists c1, r. split; [exact E|]. split; [rewrite Hfind; exact Hr|].
  apply Hin; [simpl; apply in_or_app; right; left; reflexivity|].
  apply match_holds_fieldwise. intros k' v' [Heq|[]]. inversion Heq; subst. auto.
Qed.

(** ** When [find] cannot raise *)

(** X23.  On a query of plain values [find] returns: with every stored
    document carrying an [_id] and every recorded id hashable, no
    exception can leave it. *)
Theorem find_returns_on_plain_queries (query : dict) (c : collection) :
  Forall (fun cl => is_dict (snd cl) = false) query ->
  Forall (fun d => has_key "_id" d = true) (documents c) ->
  index_ids_hashable (indexes c) = true ->
  exists r, find query c = Ok r.
Proof.
  intros Hp Hid Hh. destruct (candidates_returns query c Hh Hid) as [g Hc].
  unfold find. rewrite Hc. simpl.
  destruct (filterM_complete (fun doc => _match doc query) (filter g (documents c)))
    as [r [Hr _]]; [|eauto].
  intros d _. apply match_plain_total. exact Hp.
Qed.

Lemma update_loop_hashable (query updates : dict) (data : list dict) :
  has_key "_id" updates = false ->
  Forall has_hashable_id data ->
  forall ixs r, index_ids_hashable ixs = true ->
    update_loop query updates data ixs = Ok r -> index_ids_hashable (snd r) = true.
Proof.
  intros Hu Hd. induction Hd as [|doc data [id [Hid Hh]] _ IH]; intros ixs r Hix H; simpl in H.
  - inversion H; subst. exact Hix.
  - apply bind_Ok in H. destruct H as [b [_ H]]. destruct b.
    + apply bind_Ok in H. destruct H as [ixs' [Hup H]].
      apply bind_Ok in H. destruct H as [r' [Hr H]]. inversion H; subst. simpl.
      apply (IH ixs' r'); [|exact Hr].
      apply (_update_indexes_hashable (dict_update doc updates) id ixs); auto.
      rewrite (dict_update_get_other "_id" updates Hu). exact Hid.
    + apply bind_Ok in H. destruct H as [r' [Hr H]]. inversion H; subst. simpl.
      apply (IH ixs r' Hix Hr).
Qed.

(** X24.  Hashable ids stay hashable in the indexes: with hashable
    [_id]s in the stored documents, the indexes record only hashable ids
    after [insert_one] of a document whose stored [_id] is hashable,
    after [update] with a patch that has no [_id] field, after
    [create_index], and, whatever they recorded before, after
    [delete]. *)
Theorem recorded_ids_stay_hashable (c c' : collection) :
  Forall has_hashable_id (documents c) ->
  (forall uuid d, has_hashable_id (stored uuid d) ->
     index_ids_hashable (indexes c) = true ->
     insert_one uuid d c = Ok c' -> index_ids_hashable (indexes c') = true)
  /\ (forall query updates, has_key "_id" updates = false ->
        index_ids_hashable (indexes c) = true ->
        update query updates c = Ok c' -> index_ids_hashable (indexes c') = true)
  /\ (forall field, index_ids_hashable (indexes c) = true ->
        create_index field c = Ok c' -> index_ids_hashable (indexes c') = true)
  /\ (forall query, delete query c = Ok c' -> index_ids_hashable (indexes c') = true).
Proof.
  intros Hd. split; [|split; [|split]].
  - intros uuid d [id [Hid Hh]] Hix H. destruct (insert_one_total uuid d c) as [ixs [E1 E]].
    rewrite E in H. inversion H; subst. simpl.
    exact (_update_indexes_hashable _ id (indexes c) Hid Hh ixs Hix E1).
  - intros query updates Hu Hix H. unfold update in H.
    apply bind_Ok in H. destruct H as [r [Hr H]]. inversion H; subst. simpl.
    exact (update_loop_hashable query updates _ Hu Hd _ r Hix Hr).
  - intros field Hix H. unfold create_index in H.
    apply bind_Ok in H. destruct H as [ixs [Hi H]]. inversion H; subst. simpl.
    apply (update_indexes_all_hashable _ (dict_set field [] (indexes c)) ixs Hd); [|exact Hi].
    unfold index_ids_hashable in *.
    apply (dict_set_forallb index_hashable); [exact Hix | reflexivity].
  - intros query H. destruct (delete_keeps_unmatched_of query c c' H) as [Hsub _].
    unfold delete in H. apply bind_Ok in H. destruct H as [kept [_ H]].
    apply bind_Ok in H. destruct H as [ixs [Hi H]]. inversion H; subst. simpl in *.
    apply (update_indexes_all_hashable kept (clear_indexes (indexes c)) ixs);
      [|apply clear_indexes_hashable | exact Hi].
    rewrite Forall_forall in *. intros d Hin. apply Hd. apply Hsub. exact Hin.
Qed.

End Properties.

(** * Concrete runs

    The runs below use the literal regular-expression engine; none of
    their queries has a [$regex] clause. *)

Section Runs.
Local Existing Instance literal_regex.

(** C1 (code at the failing input).  The query [{a: None}] finds the
    document without [a] by full scan; once [create_index(a)] has run,
    the same query on the same documents finds nothing, because the
    bucket of the string [None] is taken for the bucket of null.  In the
    same way [{a: True}] finds the documents with 1 and with [True] by
    full scan and only the second through the index. *)
Theorem create_index_changes_find :
  find [("a", VNull)] (unindexed docs_null_and_text) = Ok [ [("_id", VStr "x")] ]
  /\ (c <- create_index "a" (unindexed docs_null_and_text) ;; find [("a", VNull)] c) = Ok []
  /\ find [("a", VBool true)] (unindexed docs_one_and_true) = Ok docs_one_and_true
  /\ (c <- create_index "a" (unindexed docs_one_and_true) ;; find [("a", VBool true)] c)
     = Ok [ [("a", VBool true); ("_id", VStr "y")] ].
Proof. repeat split; reflexivity. Qed.

(** C2 (code at the failing input).  [indexed_one] is reached by
    [insert_one] and [create_index] and its index is correct; after
    [update] changes [a] from 1 to 2 the id is still in the bucket of
    the old value.  And from the correct [indexed_text], an [update]
    that sets [a] to null leaves an index that is not correct: the id
    stays under the string [None]. *)
Theorem update_keeps_old_bucket_entry :
  (c <- insert_one "x" [("a", VInt 1)] new_collection ;; create_index "a" c) = Ok indexed_one
  /\ index_correct indexed_one = true
  /\ update [] [("a", VInt 2)] indexed_one = Ok indexed_one_updated
  /\ py_in (VStr "x") (clause_bucket (indexes indexed_one_updated) ("a", VInt 1)) = true
  /\ index_correct indexed_text = true
  /\ (c <- update [] [("a", VNull)] indexed_text ;; Ok (index_correct c)) = Ok false.
Proof. repeat split; reflexivity. Qed.

(** C3 (counterexample).  Two [insert_one] calls with documents that
    bring the same [_id] store both, so the ids are not pairwise
    distinct; and an [update] whose patch has an [_id] field replaces
    the [_id] of the stored document. *)
Lemma supplied_id_is_neither_unique_nor_fixed :
  (c1 <- insert_one "u1" [("_id", VStr "k"); ("n", VInt 1)] new_collection ;;
   c2 <- insert_one "u2" [("_id", VStr "k"); ("n", VInt 2)] c1 ;;
   Ok (ids_unique (documents c2))) = Ok false
  /\ (c1 <- insert_one "u1" [("n", VInt 1)] new_collection ;;
      c2 <- update [] [("_id", VStr "other")] c1 ;;
      Ok (map (dict_get "_id") (documents c1), map (dict_get "_id") (documents c2)))
     = Ok ([Some (VStr "u1")], [Some (VStr "other")]).
Proof. split; reflexivity. Qed.

Lemma id_discipline_witness :
  exists c',
    insert_many [("u1", [("n", VInt 1)]); ("u2", [("n", VInt 2)])] new_collection = Ok c'
    /\ ids_unique (documents c') = true.
Proof.
  apply (proj1 id_discipline).
  - reflexivity.
  - repeat constructor.
  - repeat constructor; simpl; intuition discriminate.
  - repeat constructor.
Defined.

(** C4 (counterexample).  The int 1 and the string [1] have the same
    string, and [group_by] puts their documents in two groups, keyed by
    the values themselves; and a list value, whose string would be a
    fine key, makes [group_by] raise. *)
Lemma group_by_does_not_stringify :
  map (fun d => py_str (_get_nested_value d "a")) docs_one_and_text = ["1"; "1"]
  /\ group_by "a" (unindexed docs_one_and_text)
     = Ok [ (VInt 1, [ [("a", VInt 1); ("_id", VStr "x")] ]);
            (VStr "1", [ [("a", VStr "1"); ("_id", VStr "y")] ]) ]
  /\ group_by "a" (unindexed [ [("a", VList [VInt 1]); ("_id", VStr "z")] ])
     = Raise TypeError.
Proof. repeat split; reflexivity. Qed.

Lemma group_by_partitions_by_value_witness :
  exists g, group_by "a" (unindexed docs_one_and_text) = Ok g /\
    groups_of "a" docs_one_and_text g /\
    (forall d, In d docs_one_and_text -> _get_nested_value d "a" = VNull ->
       exists ds, In (VNull, ds) g /\ In d ds).
Proof.
  apply (proj1 (group_by_partitions_by_value "a" (unindexed docs_one_and_text))).
  repeat constructor.
Defined.

(** C5 (counterexample).  The query [{a: None}] is a plain value on the
    indexed field [a] and its string has no bucket: consultation returns
    no candidate set and [find], by full scan, returns the document
    without [a], not the empty result. *)
Lemma missing_bucket_falls_back_on_scan :
  is_dict VNull = false
  /\ has_key "a" (indexes indexed_null_and_text) = true
  /\ clause_indexed (indexes indexed_null_and_text) ("a", VNull) = false
  /\ _query_using_indexes (indexes indexed_null_and_text) [("a", VNull)] = Ok None
  /\ find [("a", VNull)] indexed_null_and_text = Ok [ [("_id", VStr "x")] ].
Proof. repeat split; reflexivity. Qed.

Lemma index_consultation_contract_witness :
  exists ids,
    _query_using_indexes (indexes indexed_one_updated) [("a", VInt 2)] = Ok (Some ids) /\
    (forall x, py_in x ids = true <->
       forall clause, In clause [("a", VInt 2)] ->
         py_in x (clause_bucket (indexes indexed_one_updated) clause) = true) /\
    find [("a", VInt 2)] indexed_one_updated =
      (data <- filterM (fun doc => id <- getitem "_id" doc ;; Ok (py_in id ids))
                 (documents indexed_one_updated) ;;
       filterM (fun doc => _match doc [("a", VInt 2)]) data).
Proof.
  apply (proj1 (index_consultation_contract [("a", VInt 2)] indexed_one_updated eq_refl)).
  - discriminate.
  - reflexivity.
Defined.

(** C6 (counterexample).  In the state reached by [insert_one],
    [create_index] and an [update] of the indexed field, the query
    [{a: 99}] matches no document; [delete] with it keeps the document
    set and drops the bucket of the old value from the index. *)
Lemma delete_of_nothing_changes_index :
  (c <- insert_one "x" [("a", VInt 1)] new_collection ;;
   c <- create_index "a" c ;;
   update [] [("a", VInt 2)] c) = Ok indexed_one_updated
  /\ find [("a", VInt 99)] indexed_one_updated = Ok []
  /\ (c <- delete [("a", VInt 99)] indexed_one_updated ;; Ok (documents c, indexes c))
     = Ok (documents indexed_one_updated, [("a", [("2", [VStr "x"])])])
  /\ indexes indexed_one_updated = [("a", [("1", [VStr "x"]); ("2", [VStr "x"])])].
Proof. repeat split; reflexivity. Qed.

Lemma delete_of_nothing_rebuilds_indexes_witness :
  exists ixs,
    _rebuild_indexes (documents indexed_one_updated) (indexes indexed_one_updated) = Ok ixs /\
    map fst ixs = map fst (indexes indexed_one_updated) /\
    delete [("a", VInt 99)] indexed_one_updated =
      Ok {| documents := documents indexed_one_updated; indexes := ixs;
            index_file := Some ixs |} /\
    delete [("a", VInt 99)]
      {| documents := documents indexed_one_updated; indexes := ixs; index_file := Some ixs |} =
      Ok {| documents := documents indexed_one_updated; indexes := ixs;
            index_file := Some ixs |}.
Proof.
  apply (delete_of_nothing_rebuilds_indexes [("a", VInt 99)] indexed_one_updated).
  - repeat constructor.
  - repeat constructor.
Defined.

(** C7 (code at the failing input).  A boolean passes
    [isinstance(_, (int, float))]: over one document whose field is
    [True], [sum] is 1, [avg] is 1/1, and [min] and [max] are [True],
    where an empty numeric set would give 0, 0, null and null. *)
Theorem aggregate_counts_booleans :
  let c := unindexed [ [("flag", VBool true); ("_id", VStr "x")] ] in
  agg_values "flag" (documents c) = [VBool true]
  /\ aggregate "flag" "sum" c = AggValue (VInt 1)
  /\ aggregate "flag" "avg" c = AggQuot 1 1
  /\ aggregate "flag" "min" c = AggValue (VBool true)
  /\ aggregate "flag" "max" c = AggValue (VBool true).
Proof. repeat split; reflexivity. Qed.

(** C8 (counterexample).  With [a] holding the number 5, the field
    [a.b] is absent and cannot be ordered against 1, and [_match] returns
    [False] with no error at all; with [a] holding a string, the
    comparison with 1 raises [TypeError], and the exception leaves
    [find] as it left [_match]. *)
Lemma incomparable_operands_are_not_reported :
  absent (VDict [("a", VInt 5)]) (split_dot "a.b") = true
  /\ _match [("a", VInt 5)] [("a.b", VDict [("$gt", VInt 1)])] = Ok false
  /\ order_comparable (VStr "s") (VInt 1) = false
  /\ _match [("a", VStr "s"); ("_id", VStr "x")] [("a", VDict [("$gt", VInt 1)])]
     = Raise TypeError
  /\ find [("a", VDict [("$gt", VInt 1)])]
       (unindexed [ [("a", VStr "s"); ("_id", VStr "x")] ]) = Raise TypeError.
Proof. repeat split; reflexivity. Qed.

Lemma ordered_clause_on_incomparable_operands_witness :
  _match [("_id", VStr "x")] [("a", VDict [("$gt", VInt 1)])] = Raise TypeError
  /\ _match [("_id", VStr "x")] [("_id", VStr "x"); ("a", VDict [("$lt", VStr "m"); ("$gt", VInt 1)])]
     <> Ok true.
Proof.
  pose proof (ordered_clause_on_incomparable_operands
                [("_id", VStr "x")]
                [("_id", VStr "x"); ("a", VDict [("$lt", VStr "m"); ("$gt", VInt 1)])]
                [] [("$lt", VStr "m"); ("$gt", VInt 1)] [] "a" "$gt" (VInt 1)) as H.
  simpl in H. apply H.
  - reflexivity.
  - intros val E. inversion E; subst. reflexivity.
  - right; left; reflexivity.
  - right; left; reflexivity.
Defined.

Lemma insert_then_find_one_witness :
  exists c', insert_one "u7" [("name", VStr "Alice"); ("age", VInt 30)] indexed_one = Ok c' /\
    find_one [("_id", VStr "u7")] c'
    = Ok (Some [("name", VStr "Alice"); ("age", VInt 30); ("_id", VStr "u7")]).
Proof.
  apply (insert_then_find_one "u7" [("name", VStr "Alice"); ("age", VInt 30)] indexed_one).
  - reflexivity.
  - reflexivity.
  - repeat constructor.
  - reflexivity.
Defined.

Lemma empty_mapping_treated_as_absent_witness :
  _get_nested_value [("meta", VDict []); ("_id", VStr "x")] "meta" = VNull
  /\ _match [("meta", VDict []); ("_id", VStr "x")] [("meta", VNull)] = Ok false.
Proof.
  pose proof (empty_mapping_treated_as_absent
                [("meta", VDict []); ("_id", VStr "x")] "meta" eq_refl) as H.
  destruct H as [H1 [_ [_ [_ [_ [H6 _]]]]]]. split; [exact H1 | exact H6].
Defined.

(** ** The scenarios of [test_collection.py] *)

Example test_insert_and_find :
  (c <- insert_one "u1" [("name", VStr "Alice"); ("age", VInt 30);
                         ("address", VDict [("city", VStr "London")])] new_collection ;;
   find [("name", VStr "Alice")] c)
  = Ok [ [("name", VStr "Alice"); ("age", VInt 30);
          ("address", VDict [("city", VStr "London")]); ("_id", VStr "u1")] ].
Proof. reflexivity. Qed.

Example test_update :
  (c <- insert_one "u1" [("name", VStr "Carol"); ("age", VInt 22)] new_collection ;;
   c <- update [("name", VStr "Carol")] [("age", VInt 23)] c ;;
   find_one [("name", VStr "Carol")] c)
  = Ok (Some [("name", VStr "Carol"); ("age", VInt 23); ("_id", VStr "u1")]).
Proof. reflexivity. Qed.

Example test_delete :
  (c <- insert_one "u1" [("name", VStr "Dave"); ("age", VInt 40)] new_collection ;;
   c <- delete [("name", VStr "Dave")] c ;;
   find_one [("name", VStr "Dave")] c) = Ok None.
Proof. reflexivity. Qed.

Example test_create_index_and_query :
  (c <- insert_one "u1" [("name", VStr "Eve"); ("age", VInt 28)] new_collection ;;
   c <- create_index "name" c ;;
   r <- find [("name", VStr "Eve")] c ;;
   Ok (indexes c, r))
  = Ok ([("name", [("Eve", [VStr "u1"])])],
        [ [("name", VStr "Eve"); ("age", VInt 28); ("_id", VStr "u1")] ]).
Proof. reflexivity. Qed.

Example test_group_by :
  (c <- insert_one "u1" [("name", VStr "Frank"); ("group", VStr "A")] new_collection ;;
   c <- insert_one "u2" [("name", VStr "Grace"); ("group", VStr "A")] c ;;
   c <- insert_one "u3" [("name", VStr "Heidi"); ("group", VStr "B")] c ;;
   g <- group_by "group" c ;;
   Ok (map (fun kv => (fst kv, List.length (snd kv))) g))
  = Ok [(VStr "A", 2%nat); (VStr "B", 1%nat)].
Proof. reflexivity. Qed.

Example test_aggregate :
  (c <- insert_one "u1" [("name", VStr "Ivan"); ("score", VInt 10)] new_collection ;;
   c <- insert_one "u2" [("name", VStr "Judy"); ("score", VInt 20)] c ;;
   c <- insert_one "u3" [("name", VStr "Karl"); ("score", VInt 30)] c ;;
   Ok (aggregate "score" "sum" c, aggregate "score" "avg" c,
       aggregate "score" "min" c, aggregate "score" "max" c))
  = Ok (AggValue (VInt 60), AggQuot 60 3, AggValue (VInt 10), AggValue (VInt 30)).
Proof. reflexivity. Qed.

(** ** Instances of the further properties *)

Lemma indexed_one_complete : index_complete (documents indexed_one) (indexes indexed_one).
Proof.
  apply (update_indexes_all_complete (documents indexed_one) [] [("a", [])]
           (indexes indexed_one) eq_refl (index_complete_nil _)).
Qed.

Lemma indexed_one_ids : Forall has_hashable_id (documents indexed_one).
Proof. repeat constructor. exists (VStr "x"). split; reflexivity. Qed.

Lemma find_is_filter_of_scan_witness :
  exists g, documents indexed_one_updated = filter g (documents indexed_one_updated).
Proof.
  apply (find_is_filter_of_scan [("a", VInt 2)] indexed_one_updated
           (documents indexed_one_updated) (documents indexed_one_updated));
    reflexivity.
Defined.

Lemma index_complete_preserved_witness :
  index_complete (documents indexed_one_updated) (indexes indexed_one_updated).
Proof.
  apply (proj1 (proj2 index_complete_preserved) [] [("a", VInt 2)] indexed_one
           indexed_one_updated eq_refl indexed_one_complete).
Defined.


Lemma find_one_is_head_of_find_witness :
  find_one [("a", VInt 1)] indexed_one = Ok (hd_error (documents indexed_one)).
Proof.
  apply (proj1 (find_one_is_head_of_find [("a", VInt 1)] indexed_one)). reflexivity.
Defined.

Lemma delete_keeps_exactly_the_unmatched_witness :
  Forall (fun d => _match d [("a", VInt 1)] = Ok false)
    (documents {| documents := []; indexes := [("a", [])];
                  index_file := Some [("a", [])] |}).
Proof.
  apply (delete_keeps_exactly_the_unmatched [("a", VInt 1)] indexed_one
           {| documents := []; indexes := [("a", [])]; index_file := Some [("a", [])] |}).
  reflexivity.
Defined.

Lemma delete_twice_witness :
  delete [("a", VInt 1)]
    {| documents := []; indexes := [("a", [])]; index_file := Some [("a", [])] |}
  = Ok {| documents := []; indexes := [("a", [])]; index_file := Some [("a", [])] |}.
Proof.
  apply (delete_twice [("a", VInt 1)] indexed_one). reflexivity.
Defined.


Lemma update_merges_patch_into_matches_witness :
  Forall2 (fun d d' =>
             (_match d [("a", VInt 1)] = Ok true /\
              forall k, dict_get k d' = match dict_get k [("a", VInt 2)] with
                                        | Some v => Some v
                                        | None => dict_get k d
                                        end) \/
             (_match d [("a", VInt 1)] = Ok false /\ d' = d))
    (documents indexed_one) (documents indexed_one_updated).
Proof.
  apply (update_merges_patch_into_matches [("a", VInt 1)] [("a", VInt 2)] indexed_one
           indexed_one_updated).
  - repeat constructor. simpl. intuition.
  - reflexivity.
Defined.

Lemma update_without_match_witness :
  update [("a", VInt 99)] [("a", VInt 0)] indexed_one_updated =
  Ok {| documents := documents indexed_one_updated;
        indexes := indexes indexed_one_updated;
        index_file := Some (indexes indexed_one_updated) |}.
Proof.
  apply (update_without_match [("a", VInt 99)] [("a", VInt 0)] indexed_one_updated).
  repeat constructor.
Defined.

Lemma patched_documents_match_the_patch_witness :
  Forall2 (fun d d' => _match d [("a", VInt 1)] = Ok true ->
                       _match d' [("a", VInt 2)] = Ok true)
    (documents indexed_one) (documents indexed_one_updated).
Proof.
  apply (patched_documents_match_the_patch [("a", VInt 1)] [("a", VInt 2)] indexed_one
           indexed_one_updated).
  - repeat constructor. simpl. intuition.
  - repeat constructor.
  - reflexivity.
Defined.

Lemma registered_fields_witness :
  map fst (indexes indexed_one_updated) = map fst (indexes indexed_one).
Proof.
  apply (proj1 (proj2 (registered_fields indexed_one indexed_one_updated))
           [] [("a", VInt 2)]).
  reflexivity.
Defined.


Lemma create_index_twice_witness :
  exists c1, create_index "a" indexed_one_updated = Ok c1 /\ create_index "a" c1 = Ok c1.
Proof.
  apply (create_index_twice "a" indexed_one_updated).
  repeat constructor. exists (VStr "x"). split; reflexivity.
Defined.

Lemma plain_clauses_commute_witness :
  _match [("a", VInt 1); ("b", VStr "x")] [("a", VInt 1); ("b", VStr "y")] =
  _match [("a", VInt 1); ("b", VStr "x")] [("b", VStr "y"); ("a", VInt 1)].
Proof.
  apply (proj1 plain_clauses_commute).
  - repeat constructor.
  - apply perm_swap.
Defined.

Lemma ne_negates_equality_witness :
  _match [("a", VInt 1)] [("a", VInt 2)] = Ok false /\
  _match [("a", VInt 1)] [("a", VDict [("$ne", VInt 2)])] = Ok true.
Proof.
  apply (ne_negates_equality [("a", VInt 1)] "a" (VInt 2)). reflexivity.
Defined.

Lemma unknown_operators_are_skipped_witness :
  _match [("a", VInt 1)] [("b", VDict [("$exists", VBool true)]); ("a", VInt 1)] =
  _match [("a", VInt 1)] [("a", VInt 1)].
Proof.
  apply (unknown_operators_are_skipped [("a", VInt 1)] [("a", VInt 1)]
           [("$exists", VBool true)] "b").
  repeat constructor.
Defined.


Lemma group_sizes_add_up_witness :
  group_total [ (VInt 1, [ [("a", VInt 1); ("_id", VStr "x")] ]);
                (VStr "1", [ [("a", VStr "1"); ("_id", VStr "y")] ]) ] = 2%nat.
Proof.
  apply (group_sizes_add_up "a" (unindexed docs_one_and_text)). reflexivity.
Defined.

Lemma index_file_of_collection_witness :
  index_file_name (doc_file_name "users") = Some "users.index.json"
  /\ index_file_name (doc_file_name "users") = Some (doc_file_name "users.index").
Proof.
  apply (index_file_of_collection "users"); [discriminate | reflexivity].
Defined.

Lemma find_returns_only_matches_witness :
  In [("a", VInt 2); ("_id", VStr "x")] (documents indexed_one_updated) /\
  _match [("a", VInt 2); ("_id", VStr "x")] [("a", VInt 2)] = Ok true.
Proof.
  apply (find_returns_only_matches [("a", VInt 2)] indexed_one_updated
           (documents indexed_one_updated) eq_refl).
  left. reflexivity.
Defined.

Lemma insert_then_find_by_field_witness :
  exists c' r,
    insert_one "u9" [("name", VStr "Eve")] indexed_one = Ok c' /\
    find [("name", VStr "Eve")] c' = Ok r /\
    In [("name", VStr "Eve"); ("_id", VStr "u9")] r.
Proof.
  apply (insert_then_find_by_field "u9" "name" "Eve" [("name", VStr "Eve")] indexed_one).
  - reflexivity.
  - reflexivity.
  - reflexivity.
  - exact indexed_one_ids.
  - reflexivity.
  - exact indexed_one_complete.
Defined.

Lemma find_returns_on_plain_queries_witness :
  exists r, find [("a", VInt 1); ("name", VNull)] indexed_one_updated = Ok r.
Proof.
  apply (find_returns_on_plain_queries [("a", VInt 1); ("name", VNull)] indexed_one_updated).
  - repeat constructor.
  - repeat constructor.
  - reflexivity.
Defined.

Lemma recorded_ids_stay_hashable_witness :
  index_ids_hashable (indexes indexed_one_updated) = true.
Proof.
  apply (proj1 (proj2 (recorded_ids_stay_hashable indexed_one indexed_one_updated
                         indexed_one_ids)) [] [("a", VInt 2)]); reflexivity.
Defined.

(** A patch key with a dot is stored as one field, and a query key with
    a dot is a path: the patched document does not match its patch. *)
Example dotted_patch_key_is_not_a_path :
  (c <- update [] [("address.city", VStr "Paris")]
          (unindexed [ [("address", VDict [("city", VStr "London")]); ("_id", VStr "x")] ]) ;;
   r <- find [("address.city", VStr "Paris")] c ;;
   Ok (documents c, r))
  = Ok ([ [("address", VDict [("city", VStr "London")]); ("_id", VStr "x");
           ("address.city", VStr "Paris")] ], []).
Proof. reflexivity. Qed.

End Runs.
